(** * The content scraping engine of nocode_scraping

    A shallow embedding of the backend scraping service
    ([validateSelector], [clickElement], [loadPage], [getContent]) and the
    properties its specification states about it.

    The service is asynchronous TypeScript driving a browser (playwright), a
    CSS grammar checker (w3c-css-validator) and the file system (fs/promises,
    file-system-cache).  The embedding is
    - a store [St] holding what the code shares and mutates: the selector
      objects, the page cache, the files on disk, the browser page, and the
      chronological list of library calls issued so far;
    - an environment [Env] answering for the libraries: what a call returns
      and whether it throws;
    - a state-and-exception monad [M] in which every [await] is a bind, a
      rejected promise is a thrown value, and [try]/[catch] is [try_catch]. *)

From Stdlib Require Import ZArith Ascii.
From stdpp Require Import base gmap strings list.

Open Scope string_scope.
Open Scope list_scope.

(** ** Data model *)

(** JavaScript [undefined] is [None] throughout.  The types below are
    declared in [../models], [../errors] and [../interfaces/scraping], which
    are not among the sources: they are taken from the data model and the
    status taxonomy of the specification, and from the shapes the front-end
    tests of the repository spell out. *)

(** Modelled from the spec: the validity status of a selector (the enum
    [SelectorStatus] is missing); an unannotated selector has no status. *)
Inductive SelectorStatus := VALID | INVALID.

(** Modelled from the spec: the status taxonomy (the enum [ScrapingStatus]
    is missing). *)
Inductive ScrapingStatus :=
  SUCCESS | ERROR | NO_CONTENT | ELEMENT_NOT_FOUND | INVALID_SELECTOR.

(** Modelled from the spec: the status of a validity result (the enum
    [GenericResponseStatus] is missing). *)
Inductive GenericResponseStatus := GENERIC_SUCCESS | GENERIC_ERROR.

(** Modelled from the spec: the selector (the interface [DataSelector] is
    missing), [{ path: string | undefined; language?; status? }].  The
    language is a string at run time; only ["css"] is supported. *)
Record DataSelector := {
  sel_path : option string;
  sel_language : option string;
  sel_status : option SelectorStatus
}.

(** Selectors are objects: the code receives references to them and mutates
    their [status] field in place, so requests, responses and errors hold
    references into the store, not copies. *)
Abbreviation ref := nat (only parsing).

(** Modelled from the spec: the validity result (the class
    [DataSelectorValidityResponse] is missing), built by
    [new DataSelectorValidityResponse(selector, errors)]; the front-end test
    double of the service gives its shape, [{ selector, status: "success" }]. *)
Record DataSelectorValidityResponse := {
  resp_selector : ref;
  resp_errors : list string;
  resp_status : GenericResponseStatus
}.

Definition new_DataSelectorValidityResponse (selector : ref) (errors : list string) :=
  {| resp_selector := selector; resp_errors := errors; resp_status := GENERIC_SUCCESS |}.

(** Modelled from the spec: the validation error (the class
    [DataSelectorValidityError] is missing), built by
    [new DataSelectorValidityError(message, selector)]. *)
Record DataSelectorValidityError := {
  verr_message : string;
  verr_selector : ref
}.

(** Modelled from the spec: the failure record (the class [ScrapingError] is
    missing), built by [new ScrapingError(message, status, selector)]. *)
Record ScrapingError := {
  err_message : string;
  err_status : ScrapingStatus;
  err_selector : option ref
}.

(** Modelled from the spec: the success record (the class [ScrapedContent]
    is missing), built by [new ScrapedContent(content, selector, screenshot)]. *)
Record ScrapedContent := {
  sc_content : string;
  sc_selector : ref;
  sc_screenshot : string
}.

(** A parsed address, [new URL(req.url)]: what the code reads of it,
    [url.toString()], [url.hostname] and [url.pathname], each as the
    platform's parser gives it.  Requests carry an address that parses;
    parsing and serialisation are the platform's and are not modelled. *)
Record URL := {
  href : string;
  hostname : string;
  pathname : string
}.

(** Modelled from the spec: the inbound request (the interface
    [IScrapingRequest] is missing), [{ selector, url, clickBefore?, useCache? }]. *)
Record IScrapingRequest := {
  req_selector : option ref;
  req_url : URL;
  req_clickBefore : option (list (option ref));
  req_useCache : option bool
}.

(** ** Library calls, thrown values, environment *)

Inductive Call :=
| CValidateText (text : string)             (* cssValidator.validateText *)
| CLaunch                                   (* playwright.chromium.launch *)
| CNewContext                               (* browser.newContext *)
| CNewPage                                  (* context.newPage *)
| CSetDefaultTimeout (ms : Z)               (* page.setDefaultTimeout *)
| CCacheGet (ns key : string)               (* cache.get *)
| CCacheSet (ns key value : string)         (* cache.set *)
| CSetContent (html : string)               (* page.setContent *)
| CGoto (address : string)                  (* page.goto *)
| CContent                                  (* page.content *)
| CWaitForTimeout (ms : Z)                  (* page.waitForTimeout *)
| CClick (path : string)                    (* page.click *)
| CTextContent (path : string)              (* page.locator(path).textContent *)
| CScreenshot (path file : string)          (* page.locator(path).screenshot *)
| CReadFile (file : string)                 (* readFile *)
| CUnlink (file : string).                  (* unlink *)

(** A value thrown by a library.  The code only observes whether it is an
    instance of [playwright.errors.TimeoutError]. *)
Record ExtError := {
  ext_timeout : bool;
  ext_description : string
}.

Inductive Thrown :=
| ThrowValidity (e : DataSelectorValidityError)
| ThrowScraping (e : ScrapingError)
| ThrowExternal (e : ExtError).

(** [err instanceof playwright.errors.TimeoutError].  [playwright.errors] is
    the library's own table of error classes, as imported by the module. *)
Definition is_TimeoutError (err : Thrown) : bool :=
  match err with
  | ThrowExternal e => ext_timeout e
  | _ => false
  end.

(** The browser page of the request: its markup and the elements clicked on it. *)
Record Page := {
  markup : string;
  clicked : list string
}.

Definition blank_page : Page := {| markup := ""; clicked := [] |}.

(** What the libraries answer during one request.
    - [css_valid]: the verdict of the grammar checker on a style sheet;
    - [sha256_hex]: [createHash('sha256').update(s).digest('hex')];
    - [served]: the markup rendered after navigating to an address;
    - [dom_text], [dom_image]: the text content ([null] is [None]) and the
      picture (base64 of the bytes written) of the node a path locates;
    - [browser_fault]: the value a playwright call throws, if it throws;
    - [system_fault]: the description of the error a checker, cache or file
      call throws, if it throws; such errors are never playwright timeouts;
    - [arrival]: the moment the deferred work of the i-th pre-click entry
      completes, relative to the others;
    - [to_string], [to_json]: the renderings [`${err}`] and
      [JSON.stringify(err)] of a caught value. *)
Record Env := {
  css_valid : string -> bool;
  sha256_hex : string -> string;
  served : string -> string;
  dom_text : Page -> string -> option string;
  dom_image : Page -> string -> string;
  browser_fault : Call -> option ExtError;
  system_fault : Call -> option string;
  arrival : nat -> nat;
  to_string : Thrown -> string;
  to_json : Thrown -> string
}.

(** ** Store and monad *)

Record St := {
  heap : ref -> DataSelector;
  cache : gmap (string * string) string;
  files : gmap string string;
  page : Page;
  trace : list Call
}.

Inductive Res (A : Type) :=
| Ok (a : A)
| Throw (e : Thrown).
Arguments Ok {A} a.
Arguments Throw {A} e.

Definition M (A : Type) : Type := St -> Res A * St.

Definition ret {A} (a : A) : M A := fun st => (Ok a, st).

Definition throw {A} (e : Thrown) : M A := fun st => (Throw e, st).

Definition bind {A B} (m : M A) (k : A -> M B) : M B :=
  fun st =>
    match m st with
    | (Ok a, st') => k a st'
    | (Throw e, st') => (Throw e, st')
    end.

(** [try { m } catch (err) { h err }] *)
Definition try_catch {A} (m : M A) (h : Thrown -> M A) : M A :=
  fun st =>
    match m st with
    | (Ok a, st') => (Ok a, st')
    | (Throw e, st') => h e st'
    end.

Notation "'let*' x ':=' m 'in' k" := (bind m (fun x => k))
  (at level 10, x name, m at level 100, k at level 200).
Notation "m >> k" := (bind m (fun _ => k))
  (at level 90, right associativity).

Definition set_heap (h : ref -> DataSelector) (st : St) : St :=
  {| heap := h; cache := cache st; files := files st; page := page st; trace := trace st |}.
Definition set_cache (c : gmap (string * string) string) (st : St) : St :=
  {| heap := heap st; cache := c; files := files st; page := page st; trace := trace st |}.
Definition set_files (f : gmap string string) (st : St) : St :=
  {| heap := heap st; cache := cache st; files := f; page := page st; trace := trace st |}.
Definition set_page (p : Page) (st : St) : St :=
  {| heap := heap st; cache := cache st; files := files st; page := p; trace := trace st |}.
Definition log (c : Call) (st : St) : St :=
  {| heap := heap st; cache := cache st; files := files st; page := page st;
     trace := trace st ++ [c] |}.

Definition get : M St := fun st => (Ok st, st).
Definition modify (f : St -> St) : M unit := fun st => (Ok tt, f st).

(** Reading a selector object. *)
Definition deref (l : ref) : M DataSelector :=
  fun st => (Ok (heap st l), st).

(** [selector.status = v]: the one mutation of a selector object. *)
Definition with_status (v : SelectorStatus) (s : DataSelector) : DataSelector :=
  {| sel_path := sel_path s; sel_language := sel_language s; sel_status := Some v |}.

Definition update (l : ref) (s : DataSelector) (h : ref -> DataSelector) : ref -> DataSelector :=
  fun l' => if Nat.eqb l' l then s else h l'.

Definition set_status (l : ref) (v : SelectorStatus) : M unit :=
  modify (fun st => set_heap (update l (with_status v (heap st l)) (heap st)) st).

(** A call to the browser: recorded, then it throws what [browser_fault] says. *)
Definition browser_call (env : Env) (c : Call) : M unit :=
  fun st =>
    match browser_fault env c with
    | Some e => (Throw (ThrowExternal e), log c st)
    | None => (Ok tt, log c st)
    end.

(** A call to the checker, the cache or the file system. *)
Definition system_call (env : Env) (c : Call) : M unit :=
  fun st =>
    match system_fault env c with
    | Some d => (Throw (ThrowExternal {| ext_timeout := false; ext_description := d |}), log c st)
    | None => (Ok tt, log c st)
    end.

(** *** The libraries *)

Definition validateText (env : Env) (text : string) : M bool :=
  system_call env (CValidateText text) >> ret (css_valid env text).

Definition cache_get (env : Env) (ns key : string) : M (option string) :=
  system_call env (CCacheGet ns key) >>
  let* st := get in ret (cache st !! (ns, key)).

Definition cache_set (env : Env) (ns key value : string) : M unit :=
  system_call env (CCacheSet ns key value) >>
  modify (fun st => set_cache (<[(ns, key) := value]> (cache st)) st).

Definition newPage (env : Env) : M unit :=
  browser_call env CNewPage >> modify (set_page blank_page).

Definition page_setContent (env : Env) (html : string) : M unit :=
  browser_call env (CSetContent html) >>
  modify (set_page {| markup := html; clicked := [] |}).

Definition page_goto (env : Env) (address : string) : M unit :=
  browser_call env (CGoto address) >>
  modify (set_page {| markup := served env address; clicked := [] |}).

Definition page_content (env : Env) : M string :=
  browser_call env CContent >>
  let* st := get in ret (markup (page st)).

Definition page_waitForTimeout (env : Env) (ms : Z) : M unit :=
  browser_call env (CWaitForTimeout ms).

Definition page_click (env : Env) (path : string) : M unit :=
  browser_call env (CClick path) >>
  modify (fun st => set_page {| markup := markup (page st);
                                clicked := clicked (page st) ++ [path] |} st).

Definition locator_textContent (env : Env) (path : string) : M (option string) :=
  browser_call env (CTextContent path) >>
  let* st := get in ret (dom_text env (page st) path).

(** The screenshot file is written when the call succeeds. *)
Definition locator_screenshot (env : Env) (path file : string) : M unit :=
  browser_call env (CScreenshot path file) >>
  modify (fun st => set_files (<[file := dom_image env (page st) path]> (files st)) st).

Definition ENOENT (file : string) : Thrown :=
  ThrowExternal {| ext_timeout := false;
                   ext_description := "ENOENT: no such file or directory, " +:+ file |}.

(** [readFile(file, { encoding: 'base64' })] *)
Definition readFile (env : Env) (file : string) : M string :=
  system_call env (CReadFile file) >>
  let* st := get in
  match files st !! file with
  | Some data => ret data
  | None => throw (ENOENT file)
  end.

(** [unlink(file)]: fails when the file is absent. *)
Definition unlink (env : Env) (file : string) : M unit :=
  system_call env (CUnlink file) >>
  let* st := get in
  match files st !! file with
  | Some _ => modify (fun st => set_files (delete file (files st)) st)
  | None => throw (ENOENT file)
  end.

(** ** The service *)

(** Template-literal rendering of [string | undefined] and of an object. *)
Definition show (o : option string) : string := default "undefined" o.
Definition show_object : string := "[object Object]".

(** [selector.language !== 'css' && selector.language !== undefined] *)
Definition unsupported (language : option string) : bool :=
  match language with
  | Some l => negb (String.eqb l "css")
  | None => false
  end.

(** [validateSelector(selector)] *)
Definition validateSelector (env : Env) (selector : ref) : M DataSelectorValidityResponse :=
  let* s := deref selector in
  if unsupported (sel_language s) then
    throw (ThrowValidity
      {| verr_message := "Unsupported language " +:+ show (sel_language s)
                         +:+ ", only CSS is currently supported";
         verr_selector := selector |})
  else
    try_catch
      (let* valid := validateText env (show (sel_path s) +:+ " {}") in
       (if valid then set_status selector VALID else set_status selector INVALID) >>
       ret (new_DataSelectorValidityResponse selector
              ["error parsing '" +:+ show (sel_path s) +:+ "'"]))
      (fun err =>
         throw (ThrowValidity {| verr_message := to_json env err; verr_selector := selector |})).

(** [clickElement(page, selector)]; the page is the one of the store.

    In an async function a [return Promise.reject(e)] written inside a [try]
    is not awaited there, so the [catch] beside it does not intercept it: only
    the rejection of the awaited [validateSelector] is caught.  The protected
    part therefore yields the error to return early, if any. *)
Definition clickElement (env : Env) (selector : option ref) : M bool :=
  let undefined_selector : M bool :=
    throw (ThrowScraping
      {| err_message := "Undefined selector or selector path";
         err_status := ERROR; err_selector := selector |}) in
  match selector with
  | None => undefined_selector
  | Some l =>
    let* s := deref l in
    match sel_path s with
    | None => undefined_selector
    | Some p =>
      if unsupported (sel_language s) then
        throw (ThrowScraping
          {| err_message := "Unsupported language " +:+ show (sel_language s)
                            +:+ ", only CSS is currently supported";
             err_status := ERROR; err_selector := selector |})
      else
        let* early :=
          try_catch
            (let* validityResponse := validateSelector env l in
             match resp_status validityResponse with
             | GENERIC_ERROR =>
                 ret (Some {| err_message := "Error validating the selector " +:+ show_object;
                              err_status := ERROR;
                              err_selector := Some (resp_selector validityResponse) |})
             | GENERIC_SUCCESS =>
                 let* s' := deref (resp_selector validityResponse) in
                 match sel_status s' with
                 | Some INVALID =>
                     ret (Some {| err_message := "Invalid selector " +:+ show_object;
                                  err_status := INVALID_SELECTOR;
                                  err_selector := Some (resp_selector validityResponse) |})
                 | _ => ret None
                 end
             end)
            (fun err =>
               ret (Some {| err_message := "Error validating the selector " +:+ show_object;
                            err_status := ERROR; err_selector := selector |})) in
        match early with
        | Some e => throw (ThrowScraping e)
        | None =>
            try_catch
              (page_click env p >> ret true)
              (fun err =>
                 if is_TimeoutError err then
                   throw (ThrowScraping
                     {| err_message := "the selector " +:+ p +:+ " could not be found";
                        err_status := ELEMENT_NOT_FOUND; err_selector := selector |})
                 else
                   throw (ThrowScraping
                     {| err_message := "error " +:+ to_string env err
                                       +:+ " when scraping " +:+ p;
                        err_status := ERROR; err_selector := selector |}))
        end
    end
  end.

(** [loadPage(url)].  The page handle it resolves with is the page of the
    store, which [context.newPage()] resets. *)
Definition loadPage (env : Env) (url : URL) : M unit :=
  browser_call env CLaunch >>
  browser_call env CNewContext >>
  newPage env >>
  modify (log (CSetDefaultTimeout 1000)) >>
  let key := sha256_hex env (pathname url) in
  let ns := hostname url in
  try_catch
    (let* cachedHtml := cache_get env ns key in
     match cachedHtml with
     | Some html => page_setContent env html
     | None =>
         page_goto env (href url) >>
         let* html := page_content env in
         cache_set env ns key html
     end)
    (fun error => throw error).

(** [s.lastIndexOf(c)], [-1] when [c] does not occur, and [s.substring(n)]. *)
Fixpoint lastIndexOf_from (c : Ascii.ascii) (s : string) (i found : Z) : Z :=
  match s with
  | EmptyString => found
  | String a s' => lastIndexOf_from c s' (i + 1) (if Ascii.eqb a c then i else found)
  end.

Definition lastIndexOf (c : Ascii.ascii) (s : string) : Z := lastIndexOf_from c s 0 (-1).

Definition substring_from (n : Z) (s : string) : string :=
  String.substring (Z.to_nat n) (String.length s - Z.to_nat n) s.

(** The screenshot file name of a request. *)
Definition screenshotPath (u : URL) : string :=
  let baseName := substring_from (lastIndexOf "/"%char (href u) + 1) (href u) in
  "./" +:+ hostname u +:+ "-" +:+ baseName +:+ ".png".

(** *** Pre-click interactions *)

(** The callback of [req.clickBefore.map(async (element) => ...)]: it never
    rejects, a failure is recorded in [clickErr]. *)
Definition click_callback (env : Env) (element : option ref) (clickErr : option Thrown)
  : M (option Thrown) :=
  match element with
  | Some _ =>
      try_catch
        (clickElement env element >>
         page_waitForTimeout env 500 >>
         ret clickErr)
        (fun err => ret (Some err))
  | None => ret clickErr
  end.

(** [Promise.all] starts every callback at once.  An entry that is undefined,
    has no path or names an unsupported language settles without waiting for
    any library, hence before the others and in list order; the entries that
    go through the checker and the browser settle in the order [arrival]
    gives.  Calls of one entry are recorded together, at the moment it
    settles. *)
Definition settles_at_once (h : ref -> DataSelector) (element : option ref) : bool :=
  match element with
  | None => true
  | Some l =>
      match sel_path (h l) with
      | None => true
      | Some _ => unsupported (sel_language (h l))
      end
  end.

Fixpoint insert_by {A} (rank : A -> nat) (x : A) (l : list A) : list A :=
  match l with
  | [] => [x]
  | y :: l' => if Nat.leb (rank x) (rank y) then x :: l else y :: insert_by rank x l'
  end.

Definition sort_by {A} (rank : A -> nat) (l : list A) : list A :=
  foldr (insert_by rank) [] l.

Definition completion_order (env : Env) (h : ref -> DataSelector)
    (elements : list (option ref)) : list (option ref) :=
  let numbered := imap (fun i element => (i, element)) elements in
  let now := List.filter (fun ie => settles_at_once h (snd ie)) numbered in
  let later := List.filter (fun ie => negb (settles_at_once h (snd ie))) numbered in
  map snd (now ++ sort_by (fun ie => arrival env (fst ie)) later).

Fixpoint join_callbacks (env : Env) (elements : list (option ref)) (clickErr : option Thrown)
  : M (option Thrown) :=
  match elements with
  | [] => ret clickErr
  | element :: rest =>
      let* clickErr' := click_callback env element clickErr in
      join_callbacks env rest clickErr'
  end.

(** [let clickErr; await Promise.all(req.clickBefore.map(...)); if (clickErr) throw clickErr] *)
Definition click_all (env : Env) (clickBefore : list (option ref)) : M unit :=
  let* st := get in
  let* clickErr := join_callbacks env (completion_order env (heap st) clickBefore) None in
  match clickErr with
  | Some err => throw err
  | None => ret tt
  end.

(** *** The entry point *)

(** What the body of the main [try] hands back with [return]: a
    [Promise.resolve] or a [Promise.reject] that the [catch] does not see. *)
Inductive Settled :=
| Resolve (content : ScrapedContent)
| Reject (error : ScrapingError).

(** The [catch (error)] block of [getContent]. *)
Definition getContent_catch (env : Env) (selector : ref) (path file : string)
    (error : Thrown) : M Settled :=
  if is_TimeoutError error then
    throw (ThrowScraping
      {| err_message := "the selector " +:+ path +:+ " could not be found";
         err_status := NO_CONTENT; err_selector := Some selector |})
  else
    try_catch (unlink env file) (fun _ => ret tt) >>
    match error with
    | ThrowScraping e => throw (ThrowScraping e)
    | _ =>
        throw (ThrowScraping
          {| err_message := "error " +:+ to_string env error +:+ " when scraping " +:+ path;
             err_status := ERROR; err_selector := Some selector |})
    end.

(** Lines 190-214 of [getContent]: the primary selector goes through the
    validator; the result is the error to reject with, if any. *)
Definition check_selector (env : Env) (l : ref) : M (option ScrapingError) :=
  try_catch
    (let* validityResponse := validateSelector env l in
     match resp_status validityResponse with
     | GENERIC_ERROR =>
         ret (Some {| err_message := "Error validating the selector " +:+ show_object;
                      err_status := ERROR;
                      err_selector := Some (resp_selector validityResponse) |})
     | GENERIC_SUCCESS =>
         let* s' := deref (resp_selector validityResponse) in
         match sel_status s' with
         | Some INVALID =>
             ret (Some {| err_message := "Invalid selector " +:+ show_object;
                          err_status := INVALID_SELECTOR;
                          err_selector := Some (resp_selector validityResponse) |})
         | _ => ret None
         end
     end)
    (fun err =>
       ret (Some {| err_message := "invalid selector, " +:+ to_string env err;
                    err_status := ERROR; err_selector := Some l |})).

(** Lines 225-255: the page is acquired, then the pre-clicks are played. *)
Definition prepare (env : Env) (r : IScrapingRequest) : M unit :=
  loadPage env (req_url r) >>
  page_waitForTimeout env 500 >>
  match req_clickBefore r with
  | Some clickBefore => click_all env clickBefore
  | None => ret tt
  end.

(** Lines 259-276: text first, then the screenshot, read back and deleted.
    [if (content)] holds for a non-empty string only. *)
Definition extract (env : Env) (l : ref) (p file : string) : M Settled :=
  let* content := locator_textContent env p in
  locator_screenshot env p file >>
  let* imageAsBase64 := readFile env file in
  unlink env file >>
  match content with
  | Some (String c text) =>
      ret (Resolve {| sc_content := String c text; sc_selector := l;
                      sc_screenshot := "data:image/gif;base64," +:+ imageAsBase64 |})
  | _ =>
      ret (Reject {| err_message := "no content found for selector " +:+ p;
                     err_status := NO_CONTENT; err_selector := Some l |})
  end.

(** [getContent(req)] *)
Definition getContent (env : Env) (req : option IScrapingRequest) : M ScrapedContent :=
  let invalid_call : M ScrapedContent :=
    throw (ThrowScraping
      {| err_message := "invalid call"; err_status := ERROR; err_selector := None |}) in
  match req with
  | None => invalid_call
  | Some r =>
    match req_selector r with
    | None => invalid_call
    | Some l =>
      let* s := deref l in
      match sel_path s with
      | None => invalid_call
      | Some p =>
        let* early := check_selector env l in
        match early with
        | Some e => throw (ThrowScraping e)
        | None =>
          let _url := req_url r in
          let* settled :=
            try_catch
              (prepare env r >> extract env l p (screenshotPath _url))
              (getContent_catch env l p (screenshotPath _url)) in
          match settled with
          | Resolve content => ret content
          | Reject error => throw (ThrowScraping error)
          end
        end
      end
    end
  end.

(** ** Observing a run *)

(** The status a settled call carries: [SUCCESS] when it resolves, the status
    of the [ScrapingError] when it rejects with one. *)
Definition status_of {A} (r : Res A) : option ScrapingStatus :=
  match r with
  | Ok _ => Some SUCCESS
  | Throw (ThrowScraping e) => Some (err_status e)
  | Throw _ => None
  end.

Definition rejects {A} (r : Res A) : Prop :=
  match r with
  | Ok _ => False
  | Throw _ => True
  end.

(** *** Relations between the store before and after a computation *)

Class StoreOrder (R : St -> St -> Prop) : Prop := {
  store_refl : forall st, R st st;
  store_trans : forall st1 st2 st3, R st1 st2 -> R st2 st3 -> R st1 st3
}.

Definition preserves (R : St -> St -> Prop) {A} (m : M A) : Prop :=
  forall st r st', m st = (r, st') -> R st st'.

(** What a computation adds to the trace, all of it within [P]. *)
Definition emits (P : Call -> Prop) (st st' : St) : Prop :=
  exists calls, trace st' = trace st ++ calls /\ Forall P calls.

(** The fields a computation leaves alone. *)
Definition same_files (st st' : St) : Prop := files st' = files st.
Definition same_cache (st st' : St) : Prop := cache st' = cache st.

(** Selector objects keep their path and language: only [status] is written. *)
Definition same_selectors (st st' : St) : Prop :=
  forall l, sel_path (heap st' l) = sel_path (heap st l) /\
            sel_language (heap st' l) = sel_language (heap st l).

(** The elementary changes of the store. *)
Inductive Effect :=
| Called (c : Call)
| StatusSet (l : ref) (v : SelectorStatus)
| PageSet (p : Page)
| Cached (ns key value : string)
| Written (file data : string)
| Deleted (file : string).

Definition effect (e : Effect) (st : St) : St :=
  match e with
  | Called c => log c st
  | StatusSet l v => set_heap (update l (with_status v (heap st l)) (heap st)) st
  | PageSet p => set_page p st
  | Cached ns key value => set_cache (<[(ns, key) := value]> (cache st)) st
  | Written file data => set_files (<[file := data]> (files st)) st
  | Deleted file => set_files (delete file (files st)) st
  end.

(** [within F st st']: the store went from [st] to [st'] by effects in [F]. *)
Definition within (F : Effect -> Prop) (st st' : St) : Prop :=
  exists es, Forall F es /\ st' = foldl (fun s e => effect e s) st es.

(** The footprints of the stages. *)
Definition validating (e : Effect) : Prop :=
  match e with
  | Called (CValidateText _) | StatusSet _ _ => True
  | _ => False
  end.

Definition clicking (e : Effect) : Prop :=
  match e with
  | Called (CValidateText _) | Called (CClick _) | Called (CWaitForTimeout _)
  | StatusSet _ _ | PageSet _ => True
  | _ => False
  end.

Definition acquiring (e : Effect) : Prop :=
  match e with
  | Called CLaunch | Called CNewContext | Called CNewPage | Called (CSetDefaultTimeout _)
  | Called (CCacheGet _ _) | Called (CCacheSet _ _ _) | Called (CSetContent _)
  | Called (CGoto _) | Called CContent | PageSet _ | Cached _ _ _ => True
  | _ => False
  end.

Definition preparing (e : Effect) : Prop := acquiring e \/ clicking e.

Definition extracting (e : Effect) : Prop :=
  match e with
  | Called (CTextContent _) | Called (CScreenshot _ _) | Called (CReadFile _)
  | Called (CUnlink _) | Written _ _ | Deleted _ => True
  | _ => False
  end.

Definition cleaning (e : Effect) : Prop :=
  match e with
  | Called (CUnlink _) | Deleted _ => True
  | _ => False
  end.

(** What a request that stops before the extraction may do. *)
Definition aborting (e : Effect) : Prop := validating e \/ preparing e \/ cleaning e.

(** ** Vocabulary of the specification *)

(** A pre-click entry fails validation: its language is not supported, or the
    checker throws on its rule, or the checker finds the rule invalid. *)
Definition fails_validation (env : Env) (s : DataSelector) : bool :=
  let rule := show (sel_path s) +:+ " {}" in
  unsupported (sel_language s)
  || match system_fault env (CValidateText rule) with Some _ => true | None => false end
  || negb (css_valid env rule).

(** The click on a pre-click entry times out. *)
Definition click_times_out (env : Env) (s : DataSelector) : bool :=
  match sel_path s with
  | Some p =>
      match browser_fault env (CClick p) with
      | Some e => ext_timeout e
      | None => false
      end
  | None => false
  end.

(** A pre-click entry that goes through the checker and the browser, and
    fails there. *)
Definition fails_later (env : Env) (s : DataSelector) : bool :=
  match sel_path s with
  | Some p =>
      negb (unsupported (sel_language s))
      && (fails_validation env s
          || match browser_fault env (CClick p) with Some _ => true | None => false end)
  | None => false
  end.

(** The error recorded by the pre-clicks, if any, has the generic status. *)
Definition generic_or_none (clickErr : option Thrown) : Prop :=
  match clickErr with
  | None => True
  | Some (ThrowScraping e) => err_status e = ERROR
  | Some _ => False
  end.

(** After the text has been read, a step of the extraction fails otherwise
    than by a browser timeout: the screenshot, its read-back or its deletion. *)
Definition screenshot_step_fails (env : Env) (p file : string) : bool :=
  match browser_fault env (CScreenshot p file) with
  | Some e => negb (ext_timeout e)
  | None =>
      match system_fault env (CReadFile file), system_fault env (CUnlink file) with
      | None, None => false
      | _, _ => true
      end
  end.

(** A call that fetches the page live or writes the cache. *)
Definition refetch_call (c : Call) : Prop :=
  match c with
  | CGoto _ | CCacheSet _ _ _ => True
  | _ => False
  end.

(** The page was not fetched again and the cache is as it was. *)
Definition cache_reused (st st' : St) : Prop :=
  emits (fun c => ~ refetch_call c) st st' /\ cache st' = cache st.

(** The cache key of an address: the digest of its path, under its host. *)
Definition cache_key (env : Env) (u : URL) : string * string :=
  (hostname u, sha256_hex env (pathname u)).

Definition with_useCache (flag : option bool) (r : IScrapingRequest) : IScrapingRequest :=
  {| req_selector := req_selector r; req_url := req_url r;
     req_clickBefore := req_clickBefore r; req_useCache := flag |}.

(** The calls of the extraction stage that read the text and create the
    screenshot file. *)
Definition extraction_call (c : Call) : Prop :=
  match c with
  | CTextContent _ | CScreenshot _ _ => True
  | _ => False
  end.

(** No file exists afterwards that did not exist before. *)
Definition no_file_created (st st' : St) : Prop := files st' ⊆ files st.

(** The error of the first branch of the [catch] block of [getContent]: what
    a request is rejected with when the browser timed out. *)
Definition timeout_rejection (l : ref) (p : string) : ScrapingError :=
  {| err_message := "the selector " +:+ p +:+ " could not be found";
     err_status := NO_CONTENT; err_selector := Some l |}.

(** A thrown value other than a [ScrapingError] of status [NO_CONTENT]. *)
Definition not_NO_CONTENT (err : Thrown) : Prop :=
  match err with
  | ThrowScraping e => err_status e <> NO_CONTENT
  | _ => True
  end.

(** The libraries answer on the way of a cache hit: the browser starts, the
    cache is read, the cached markup is set into the page. *)
Definition hit_goes_through (env : Env) (u : URL) (html : string) : Prop :=
  browser_fault env CLaunch = None /\
  browser_fault env CNewContext = None /\
  browser_fault env CNewPage = None /\
  system_fault env (CCacheGet (hostname u) (sha256_hex env (pathname u))) = None /\
  browser_fault env (CSetContent html) = None.

(** The page holds the markup it held, and the calls made so far are still
    on record. *)
Definition same_content (st st' : St) : Prop :=
  markup (page st') = markup (page st) /\ exists calls, trace st' = trace st ++ calls.

(** ** Sample worlds and requests

    Concrete inputs on which the service is run below: the address and the
    selectors of the end-to-end scenarios of the specification. *)

Definition TimeoutError : ExtError :=
  {| ext_timeout := true; ext_description := "TimeoutError: Timeout 1000ms exceeded." |}.

(** A world whose checker rejects [.a-bad-selector] and the empty selector,
    whose pages hold the text "yeah baby" everywhere but under [.empty], and
    whose faults are given. *)
Definition world (bf : Call -> option ExtError) (sf : Call -> option string) : Env :=
  {| css_valid := fun text =>
       negb (String.eqb text ".a-bad-selector {}" || String.eqb text " {}");
     sha256_hex := fun s => "sha256:" +:+ s;
     served := fun address => "<html><!-- " +:+ address +:+ " --></html>";
     dom_text := fun _ path => if String.eqb path ".empty" then Some "" else Some "yeah baby";
     dom_image := fun _ _ => "R0lGODlhAQABAAAAACwAAAAAAQABAAA=";
     browser_fault := bf;
     system_fault := sf;
     arrival := fun i => i;
     to_string := fun err =>
       match err with
       | ThrowExternal e => ext_description e
       | ThrowValidity e => verr_message e
       | ThrowScraping e => err_message e
       end;
     to_json := fun _ => "{}" |}.

Definition no_fault {E} (c : Call) : option E := None.

Definition calm : Env := world no_fault no_fault.

(** The checker cannot be reached. *)
Definition checker_down (c : Call) : option string :=
  match c with
  | CValidateText _ => Some "Error: getaddrinfo ENOTFOUND jigsaw.w3.org"
  | _ => None
  end.

(** Files cannot be deleted. *)
Definition delete_denied (c : Call) : option string :=
  match c with
  | CUnlink _ => Some "Error: EPERM: operation not permitted, unlink"
  | _ => None
  end.

(** The disk is full: the screenshot cannot be written. *)
Definition disk_full (c : Call) : option ExtError :=
  match c with
  | CScreenshot _ _ =>
      Some {| ext_timeout := false;
              ext_description := "Error: ENOSPC: no space left on device, write" |}
  | _ => None
  end.

(** No node matches the primary selector: waiting for it times out. *)
Definition node_never_appears (c : Call) : option ExtError :=
  match c with
  | CTextContent _ => Some TimeoutError
  | _ => None
  end.

(** The cookie pop-up never shows: clicking on it times out. *)
Definition popup_never_appears (c : Call) : option ExtError :=
  match c with
  | CClick ".a-popup-selector" => Some TimeoutError
  | _ => None
  end.

Definition css_selector (path : string) : DataSelector :=
  {| sel_path := Some path; sel_language := None; sel_status := None |}.

(** The selector objects of the samples, by reference. *)
Definition sample_heap (l : ref) : DataSelector :=
  match l with
  | 0 => css_selector ".a-good-selector"
  | 1 => css_selector ".a-bad-selector"
  | 2 => css_selector ".a-popup-selector"
  | 3 => {| sel_path := Some "//div"; sel_language := Some "xpath"; sel_status := None |}
  | 4 => css_selector ".empty"
  | 5 => {| sel_path := None; sel_language := None; sel_status := None |}
  | _ => css_selector ""
  end.

Definition fresh : St :=
  {| heap := sample_heap; cache := ∅; files := ∅; page := blank_page; trace := [] |}.

Definition sample_url : URL :=
  {| href := "https://example.test/page";
     hostname := "example.test"; pathname := "/page" |}.

(** The same page, asked with a query and a fragment. *)
Definition sample_url_with_query : URL :=
  {| href := "https://example.test/page?lang=fr#top";
     hostname := "example.test"; pathname := "/page" |}.

(** A store whose cache already holds markup for the sample page. *)
Definition stale_markup : string := "<html><!-- captured earlier --></html>".

Definition cached : St :=
  {| heap := sample_heap;
     cache := {[ ("example.test", "sha256:/page") := stale_markup ]};
     files := ∅; page := blank_page; trace := [] |}.

Definition request (l : ref) (clickBefore : option (list (option ref)))
    (useCache : option bool) : IScrapingRequest :=
  {| req_selector := Some l; req_url := sample_url;
     req_clickBefore := clickBefore; req_useCache := useCache |}.

(** The site cannot be reached; the site does not answer in time. *)
Definition NameNotResolved : ExtError :=
  {| ext_timeout := false;
     ext_description := "Error: net::ERR_NAME_NOT_RESOLVED at https://example.test/page" |}.

Definition site_unreachable (c : Call) : option ExtError :=
  match c with
  | CGoto _ => Some NameNotResolved
  | _ => None
  end.

Definition navigation_times_out (c : Call) : option ExtError :=
  match c with
  | CGoto _ => Some TimeoutError
  | _ => None
  end.

(** ** Vocabulary of further properties *)

(** The selector object [l] carries the status valid, and the checker finds
    the rule of its path valid. *)
Definition validated (env : Env) (l : ref) (st : St) : Prop :=
  sel_status (heap st l) = Some VALID /\
  css_valid env (show (sel_path (heap st l)) +:+ " {}") = true.

Definition keeps_valid (env : Env) (l : ref) (st st' : St) : Prop :=
  validated env l st -> validated env l st'.

(** One file, one cache entry, as it was. *)
Definition same_file_at (file : string) (st st' : St) : Prop :=
  files st' !! file = files st !! file.

Definition same_entry_at (key : string * string) (st st' : St) : Prop :=
  cache st' !! key = cache st !! key.

(** The effects that write the cache only at [key] and the disk only at [file]. *)
Definition bounded (key : string * string) (file : string) (e : Effect) : Prop :=
  match e with
  | Cached ns k _ => (ns, k) = key
  | Written f _ | Deleted f => f = file
  | _ => True
  end.

(** What a request whose text cannot be read may do. *)
Definition reading (e : Effect) : Prop :=
  match e with
  | Called (CTextContent _) => True
  | _ => aborting e
  end.

(** The calls that take the screenshot and read it back. *)
Definition screenshot_call (c : Call) : Prop :=
  match c with
  | CScreenshot _ _ | CReadFile _ => True
  | _ => False
  end.

(** How a pre-click entry settles, read off its path, its language and the
    answers of the libraries: [None] when the click goes through, the status
    of the rejection otherwise. *)
Definition entry_status (env : Env) (s : DataSelector) : option ScrapingStatus :=
  match sel_path s with
  | None => Some ERROR
  | Some p =>
      if unsupported (sel_language s) then Some ERROR
      else
        match system_fault env (CValidateText (p +:+ " {}")) with
        | Some _ => Some ERROR
        | None =>
            if css_valid env (p +:+ " {}") then
              match browser_fault env (CClick p) with
              | Some x => Some (if ext_timeout x then ELEMENT_NOT_FOUND else ERROR)
              | None => None
              end
            else Some INVALID_SELECTOR
        end
  end.

(** The status of the last entry of a list that fails, if one does. *)
Definition later_failure (env : Env) (h : ref -> DataSelector)
    (acc : option ScrapingStatus) (element : option ref) : option ScrapingStatus :=
  match element with
  | Some l =>
      match entry_status env (h l) with
      | Some s => Some s
      | None => acc
      end
  | None => acc
  end.

Definition last_failure (env : Env) (h : ref -> DataSelector)
    (elements : list (option ref)) : option ScrapingStatus :=
  foldl (later_failure env h) None elements.

(** The error recorded by the callbacks so far has the given status. *)
Definition recorded (clickErr : option Thrown) (s : option ScrapingStatus) : Prop :=
  match clickErr, s with
  | None, None => True
  | Some (ThrowScraping e), Some s => err_status e = s
  | _, _ => False
  end.

(** [evaluate] of the front end ([socket/scraping.ts]): the request it
    emits for a selector, an address and the selector of the cookie pop-up,
    which is undefined when the user has not switched it on. *)
Definition evaluateConfig (s : ref) (url : URL) (popupSelector : option ref)
  : IScrapingRequest :=
  {| req_selector := Some s; req_url := url;
     req_clickBefore := Some [popupSelector]; req_useCache := Some true |}.

Definition without_clickBefore (r : IScrapingRequest) : IScrapingRequest :=
  {| req_selector := req_selector r; req_url := req_url r;
     req_clickBefore := None; req_useCache := req_useCache r |}.

(** The paths of the defined entries of a pre-click list. *)
Fixpoint entry_paths (h : ref -> DataSelector) (elements : list (option ref))
  : list string :=
  match elements with
  | [] => []
  | Some l :: rest =>
      match sel_path (h l) with
      | Some p => p :: entry_paths h rest
      | None => entry_paths h rest
      end
  | None :: rest => entry_paths h rest
  end.

(** The effects of the pre-click stage that write the status of the
    selector objects in [P] only. *)
Definition clicking_on (P : ref -> Prop) (e : Effect) : Prop :=
  match e with
  | StatusSet l _ => P l
  | _ => clicking e
  end.

Definition same_selector_at (l : ref) (st st' : St) : Prop := heap st' l = heap st l.

(** The calls of the pre-click stage. *)
Definition preclick_call (c : Call) : Prop :=
  match c with
  | CValidateText _ | CClick _ | CWaitForTimeout _ => True
  | _ => False
  end.

(** A character occurs in a string; the position of its last occurrence. *)
Fixpoint occurs (c : Ascii.ascii) (s : string) : bool :=
  match s with
  | EmptyString => false
  | String a s' => Ascii.eqb a c || occurs c s'
  end.

Fixpoint last_pos (c : Ascii.ascii) (s : string) : option nat :=
  match s with
  | EmptyString => None
  | String a s' =>
      match last_pos c s' with
      | Some k => Some (S k)
      | None => if Ascii.eqb a c then Some 0 else None
      end
  end.

(** *** The selector form of the front end

    [SelectorConfig] keeps the sample address, the selector being edited, the
    switch of the cookie pop-up and its selector; on every change it computes
    whether the evaluation button is enabled and the message of its tooltip.
    [isURL] is the check of the validator library, [t] the translation of a
    message key, with the value interpolated when there is one. *)
Record SelectorConfigState := {
  sampleUrl : option URL;
  selector : option DataSelector;
  isPopup : bool;
  popupSelector : option DataSelector
}.

Record FrontLib := {
  isURL : string -> bool;
  t : string -> option (option string) -> string
}.

(** [o?.status === v] *)
Definition status_is (v : SelectorStatus) (o : option DataSelector) : bool :=
  match o with
  | Some s =>
      match sel_status s, v with
      | Some VALID, VALID | Some INVALID, INVALID => true
      | _, _ => false
      end
  | None => false
  end.

(** [_isEvaluationEnabled()] *)
Definition _isEvaluationEnabled (lib : FrontLib) (c : SelectorConfigState) : bool :=
  let condition :=
    match sampleUrl c with
    | Some u => isURL lib (href u) && status_is VALID (selector c)
    | None => false
    end in
  match isPopup c, popupSelector c with
  | true, Some popup => condition && status_is VALID (Some popup)
  | _, _ => condition
  end.

(** [_evaluationHelperMessage()] *)
Definition _evaluationHelperMessage (lib : FrontLib) (c : SelectorConfigState) : string :=
  let incorrect_url :=
    match sampleUrl c with
    | Some u => negb (isURL lib (href u))
    | None => true
    end in
  if incorrect_url then t lib "field.evaluation.disabled_incorrect_sample_url" None
  else if status_is INVALID (selector c) then
    t lib "field.evaluation.disabled"
      (Some (match selector c with Some s => sel_path s | None => None end))
  else
    match isPopup c, popupSelector c with
    | true, Some popup =>
        if status_is INVALID (Some popup) then
          t lib "field.evaluation.disabled" (Some (sel_path popup))
        else t lib "field.evaluation.enabled" None
    | _, _ => t lib "field.evaluation.enabled" None
    end.

(** * Properties *)

(** ** Reasoning about the monad *)

Lemma bind_Ok {A B} (m : M A) (k : A -> M B) st a st1 :
  m st = (Ok a, st1) -> bind m k st = k a st1.
Proof. intros H. unfold bind. now rewrite H. Qed.

Lemma bind_Throw {A B} (m : M A) (k : A -> M B) st e st1 :
  m st = (Throw e, st1) -> bind m k st = (Throw e, st1).
Proof. intros H. unfold bind. now rewrite H. Qed.

Lemma bind_inv {A B} (m : M A) (k : A -> M B) st r st' :
  bind m k st = (r, st') ->
  (exists e, m st = (Throw e, st') /\ r = Throw e) \/
  (exists a st1, m st = (Ok a, st1) /\ k a st1 = (r, st')).
Proof.
  unfold bind. destruct (m st) as [[a|e] st1]; intros H.
  - right. eauto.
  - left. inversion H; subst. eauto.
Qed.

Lemma try_catch_Ok {A} (m : M A) h st a st1 :
  m st = (Ok a, st1) -> try_catch m h st = (Ok a, st1).
Proof. intros H. unfold try_catch. now rewrite H. Qed.

Lemma try_catch_Throw {A} (m : M A) h st e st1 :
  m st = (Throw e, st1) -> try_catch m h st = h e st1.
Proof. intros H. unfold try_catch. now rewrite H. Qed.

Lemma try_catch_inv {A} (m : M A) h st r st' :
  try_catch m h st = (r, st') ->
  (exists a, m st = (Ok a, st') /\ r = Ok a) \/
  (exists e st1, m st = (Throw e, st1) /\ h e st1 = (r, st')).
Proof.
  unfold try_catch. destruct (m st) as [[a|e] st1]; intros H.
  - left. inversion H; subst. eauto.
  - right. eauto.
Qed.

Section Frame.
Context (R : St -> St -> Prop) `{!StoreOrder R}.

Lemma preserves_ret {A} (a : A) : preserves R (ret a).
Proof. intros st r st' H. inversion H; subst. apply store_refl. Qed.

Lemma preserves_throw {A} e : preserves R (@throw A e).
Proof. intros st r st' H. inversion H; subst. apply store_refl. Qed.

Lemma preserves_get : preserves R get.
Proof. intros st r st' H. inversion H; subst. apply store_refl. Qed.

Lemma preserves_deref l : preserves R (deref l).
Proof. intros st r st' H. inversion H; subst. apply store_refl. Qed.

Lemma preserves_modify f : (forall st, R st (f st)) -> preserves R (modify f).
Proof. intros Hf st r st' H. inversion H; subst. apply Hf. Qed.

Lemma preserves_bind {A B} (m : M A) (k : A -> M B) :
  preserves R m -> (forall a, preserves R (k a)) -> preserves R (bind m k).
Proof.
  intros Hm Hk st r st' H.
  destruct (bind_inv _ _ _ _ _ H) as [(e & H1 & _) | (a & st1 & H1 & H2)].
  - eapply Hm; eauto.
  - eapply store_trans; [eapply Hm | eapply Hk]; eauto.
Qed.

Lemma preserves_try_catch {A} (m : M A) h :
  preserves R m -> (forall e, preserves R (h e)) -> preserves R (try_catch m h).
Proof.
  intros Hm Hh st r st' H.
  destruct (try_catch_inv _ _ _ _ _ H) as [(a & H1 & _) | (e & st1 & H1 & H2)].
  - eapply Hm; eauto.
  - eapply store_trans; [eapply Hm | eapply Hh]; eauto.
Qed.

Lemma preserves_browser_call env c :
  (forall st, R st (log c st)) -> preserves R (browser_call env c).
Proof.
  intros Hc st r st' H. unfold browser_call in H.
  destruct (browser_fault env c); inversion H; subst; apply Hc.
Qed.

Lemma preserves_system_call env c :
  (forall st, R st (log c st)) -> preserves R (system_call env c).
Proof.
  intros Hc st r st' H. unfold system_call in H.
  destruct (system_fault env c); inversion H; subst; apply Hc.
Qed.
End Frame.

(** Splitting a computation into the frame rules above, leaving the facts
    about single calls and single updates of the store. *)
Ltac frame_step :=
  match goal with
  | |- preserves _ (bind _ _) => apply preserves_bind; [exact _ | | intros ?]
  | |- preserves _ (try_catch _ _) => apply preserves_try_catch; [exact _ | | intros ?]
  | |- preserves _ (ret _) => apply preserves_ret; exact _
  | |- preserves _ (throw _) => apply preserves_throw; exact _
  | |- preserves _ get => apply preserves_get; exact _
  | |- preserves _ (deref _) => apply preserves_deref; exact _
  | |- preserves _ (modify _) => apply preserves_modify; intros ?
  | |- preserves _ (browser_call _ _) => apply preserves_browser_call; intros ?
  | |- preserves _ (system_call _ _) => apply preserves_system_call; intros ?
  | |- preserves _ (match ?x with _ => _ end) => destruct x
  end.

Create HintDb frame.

Ltac frame :=
  repeat first
    [ solve [eauto with frame]
    | frame_step
    | progress cbv zeta
    | progress unfold validateText, cache_get, cache_set, newPage, page_setContent,
        page_goto, page_content, page_waitForTimeout, page_click, locator_textContent,
        locator_screenshot, readFile, unlink, set_status ].

#[global] Instance emits_order P : StoreOrder (emits P).
Proof.
  split.
  - intros st. exists []. split; [now rewrite app_nil_r | constructor].
  - intros st1 st2 st3 (c1 & E1 & F1) (c2 & E2 & F2).
    exists (c1 ++ c2). split.
    + now rewrite E2, E1, app_assoc.
    + apply Forall_app; auto.
Qed.

Lemma emits_log (P : Call -> Prop) c st : P c -> emits P st (log c st).
Proof. intros Hc. exists [c]. split; [reflexivity | repeat constructor; exact Hc]. Qed.

Lemma emits_same_trace P st st' : trace st' = trace st -> emits P st st'.
Proof. intros E. exists []. split; [now rewrite app_nil_r | constructor]. Qed.

#[global] Instance same_files_order : StoreOrder same_files.
Proof. split; unfold same_files; [reflexivity | intros; congruence]. Qed.

#[global] Instance same_cache_order : StoreOrder same_cache.
Proof. split; unfold same_cache; [reflexivity | intros; congruence]. Qed.

#[global] Instance same_selectors_order : StoreOrder same_selectors.
Proof.
  split.
  - intros st l. split; reflexivity.
  - intros st1 st2 st3 H12 H23 l.
    destruct (H12 l) as [? ?], (H23 l) as [? ?]. split; congruence.
Qed.

Lemma same_selectors_update st l v :
  same_selectors st (set_heap (update l (with_status v (heap st l)) (heap st)) st).
Proof.
  intros l'. simpl. unfold update.
  destruct (Nat.eqb_spec l' l) as [->|]; split; reflexivity.
Qed.

(** ** The selector validator *)

(** C7.  A selector whose language is defined and is not css makes
    [validateSelector] fail at once with the unsupported-language error, whose
    message names the offending value; the store is returned as it was, so no
    library (checker, cache, browser, network) has been called. *)
Theorem validateSelector_unsupported_language env selector st lang :
  sel_language (heap st selector) = Some lang ->
  lang <> "css" ->
  validateSelector env selector st =
    (Throw (ThrowValidity
       {| verr_message := "Unsupported language " +:+ lang
                          +:+ ", only CSS is currently supported";
          verr_selector := selector |}),
     st).
Proof.
  intros Hlang Hcss. unfold validateSelector, bind, deref.
  rewrite Hlang. simpl.
  destruct (String.eqb_spec lang "css") as [E|_]; [contradiction | reflexivity].
Qed.

Lemma validateSelector_unsupported_language_witness :
  validateSelector calm 3 fresh =
    (Throw (ThrowValidity
       {| verr_message := "Unsupported language xpath, only CSS is currently supported";
          verr_selector := 3 |}),
     fresh).
Proof.
  apply (validateSelector_unsupported_language calm 3 fresh "xpath").
  - reflexivity.
  - discriminate.
Defined.

Lemma supported_language s :
  sel_language s = None \/ sel_language s = Some "css" ->
  unsupported (sel_language s) = false.
Proof. intros [-> | ->]; reflexivity. Qed.

Lemma validateSelector_clean env selector st :
  let s := heap st selector in
  let rule := show (sel_path s) +:+ " {}" in
  unsupported (sel_language s) = false ->
  system_fault env (CValidateText rule) = None ->
  validateSelector env selector st =
    (Ok (new_DataSelectorValidityResponse selector
           ["error parsing '" +:+ show (sel_path s) +:+ "'"]),
     set_heap
       (update selector
          (with_status (if css_valid env rule then VALID else INVALID) s) (heap st))
       (log (CValidateText rule) st)).
Proof.
  intros s rule Hlang Hclean.
  cbv [validateSelector bind deref try_catch validateText system_call ret].
  fold s. rewrite Hlang. fold rule. rewrite Hclean.
  destruct (css_valid env rule); reflexivity.
Qed.

Lemma validateSelector_throws env selector st d :
  let s := heap st selector in
  let rule := show (sel_path s) +:+ " {}" in
  unsupported (sel_language s) = false ->
  system_fault env (CValidateText rule) = Some d ->
  validateSelector env selector st =
    (Throw (ThrowValidity
       {| verr_message :=
            to_json env (ThrowExternal {| ext_timeout := false; ext_description := d |});
          verr_selector := selector |}),
     log (CValidateText rule) st).
Proof.
  intros s rule Hlang Hthrows.
  cbv [validateSelector bind deref try_catch validateText system_call ret].
  fold s. rewrite Hlang. fold rule. rewrite Hthrows. reflexivity.
Qed.

(** C6.  For a selector whose language is css or unset: when the checker
    runs cleanly [validateSelector] returns, having written into the selector
    object itself the status [VALID] if the rule "<path> {}" is valid CSS and
    [INVALID] otherwise, and having touched nothing else but the trace; when
    the checker throws, [validateSelector] fails with a
    [DataSelectorValidityError], which is a rejection and not a response
    carrying [INVALID], and the selector is left as it was. *)
Theorem validateSelector_css env selector st :
  let s := heap st selector in
  let rule := show (sel_path s) +:+ " {}" in
  sel_language s = None \/ sel_language s = Some "css" ->
  (system_fault env (CValidateText rule) = None ->
   validateSelector env selector st =
     (Ok (new_DataSelectorValidityResponse selector
            ["error parsing '" +:+ show (sel_path s) +:+ "'"]),
      set_heap
        (update selector
           (with_status (if css_valid env rule then VALID else INVALID) s) (heap st))
        (log (CValidateText rule) st)))
  /\
  (forall d, system_fault env (CValidateText rule) = Some d ->
   validateSelector env selector st =
     (Throw (ThrowValidity
        {| verr_message :=
             to_json env (ThrowExternal {| ext_timeout := false; ext_description := d |});
           verr_selector := selector |}),
      log (CValidateText rule) st)).
Proof.
  intros s rule Hlang. apply supported_language in Hlang.
  split.
  - intros Hclean. now apply validateSelector_clean.
  - intros d Hthrows. now apply validateSelector_throws.
Qed.

Lemma validateSelector_css_witness :
  heap (snd (validateSelector calm 0 fresh)) 0
    = with_status VALID (css_selector ".a-good-selector") /\
  heap (snd (validateSelector calm 1 fresh)) 1
    = with_status INVALID (css_selector ".a-bad-selector") /\
  validateSelector (world no_fault checker_down) 0 fresh
    = (Throw (ThrowValidity {| verr_message := "{}"; verr_selector := 0 |}),
       log (CValidateText ".a-good-selector {}") fresh).
Proof.
  split; [| split].
  - rewrite (proj1 (validateSelector_css calm 0 fresh (or_introl eq_refl)) eq_refl).
    reflexivity.
  - rewrite (proj1 (validateSelector_css calm 1 fresh (or_introl eq_refl)) eq_refl).
    reflexivity.
  - apply (proj2 (validateSelector_css (world no_fault checker_down) 0 fresh
                    (or_introl eq_refl))
             "Error: getaddrinfo ENOTFOUND jigsaw.w3.org").
    reflexivity.
Defined.

(** ** Pre-clicks *)

Lemma update_same l s h : update l s h l = s.
Proof. unfold update. now rewrite Nat.eqb_refl. Qed.

(** C8.  A pre-click on a selector with a path and a supported language,
    the checker running cleanly: a selector the checker finds invalid is
    rejected with status [INVALID_SELECTOR]; on a valid selector, a click that
    times out is rejected with [ELEMENT_NOT_FOUND], a click that fails
    otherwise with [ERROR], and a click that succeeds resolves (with [true]). *)
Theorem clickElement_classification env l p st :
  let rule := p +:+ " {}" in
  let r := fst (clickElement env (Some l) st) in
  sel_path (heap st l) = Some p ->
  sel_language (heap st l) = None \/ sel_language (heap st l) = Some "css" ->
  system_fault env (CValidateText rule) = None ->
  (css_valid env rule = false -> status_of r = Some INVALID_SELECTOR) /\
  (css_valid env rule = true ->
   (forall e, browser_fault env (CClick p) = Some e -> ext_timeout e = true ->
              status_of r = Some ELEMENT_NOT_FOUND) /\
   (forall e, browser_fault env (CClick p) = Some e -> ext_timeout e = false ->
              status_of r = Some ERROR) /\
   (browser_fault env (CClick p) = None -> r = Ok true)).
Proof.
  intros rule r Hpath Hlang Hclean. apply supported_language in Hlang.
  assert (Hv := validateSelector_clean env l st Hlang).
  rewrite Hpath in Hv. simpl in Hv. fold rule in Hv. specialize (Hv Hclean).
  subst r. cbv [clickElement bind deref try_catch ret].
  rewrite Hpath, Hlang, Hv. cbn [resp_status new_DataSelectorValidityResponse resp_selector].
  cbn [heap set_heap]. rewrite update_same.
  split.
  - intros ->. reflexivity.
  - intros ->. cbn. cbv [page_click browser_call bind].
    repeat split.
    + intros e -> He. cbn. rewrite He. reflexivity.
    + intros e -> He. cbn. rewrite He. reflexivity.
    + intros ->. reflexivity.
Qed.

(** *** What each function may do to the store *)

#[global] Instance within_order F : StoreOrder (within F).
Proof.
  split.
  - intros st. exists []. split; [constructor | reflexivity].
  - intros st1 st2 st3 (es1 & F1 & E1) (es2 & F2 & E2).
    exists (es1 ++ es2). split.
    + apply Forall_app; auto.
    + now rewrite foldl_app, <- E1.
Qed.

Lemma within_effect (F : Effect -> Prop) e st : F e -> within F st (effect e st).
Proof. intros He. exists [e]. split; [repeat constructor; exact He | reflexivity]. Qed.

Lemma within_weaken (F G : Effect -> Prop) st st' :
  (forall e, F e -> G e) -> within F st st' -> within G st st'.
Proof.
  intros HFG (es & HF & E). exists es. split; [| exact E].
  eapply Forall_impl; eauto.
Qed.

Lemma preserves_weaken (F G : Effect -> Prop) {A} (m : M A) :
  preserves (within F) m -> (forall e, F e -> G e) -> preserves (within G) m.
Proof. intros Hm HFG st r st' H. eapply within_weaken; eauto. Qed.

(** A relation that every effect of [F] respects holds across [within F]. *)
Lemma within_sound R `{!StoreOrder R} (F : Effect -> Prop) :
  (forall e st, F e -> R st (effect e st)) ->
  forall st st', within F st st' -> R st st'.
Proof.
  intros HR st st' (es & HF & ->). revert st.
  induction HF as [|e es He _ IH]; intros st; simpl.
  - apply store_refl.
  - eapply store_trans; [apply HR; exact He | apply IH].
Qed.

Lemma same_selectors_heap st st' : heap st' = heap st -> same_selectors st st'.
Proof. intros E l. rewrite E. split; reflexivity. Qed.

Lemma within_same_selectors F st st' : within F st st' -> same_selectors st st'.
Proof.
  apply within_sound; [exact _ |].
  intros [c|l v|p|ns key value|file data|file] st0 _; simpl;
    solve [apply same_selectors_update | apply same_selectors_heap; reflexivity].
Qed.

Lemma within_emits (F : Effect -> Prop) (P : Call -> Prop) st st' :
  (forall c, F (Called c) -> P c) -> within F st st' -> emits P st st'.
Proof.
  intros HP. apply within_sound; [exact _ |].
  intros [c|l v|p|ns key value|file data|file] st0 He; simpl;
    try (apply emits_same_trace; reflexivity).
  apply emits_log, HP, He.
Qed.

Lemma within_same_files (F : Effect -> Prop) st st' :
  (forall file data, ~ F (Written file data)) -> (forall file, ~ F (Deleted file)) ->
  within F st st' -> same_files st st'.
Proof.
  intros HW HD. apply within_sound; [exact _ |].
  intros [c|l v|p|ns key value|file data|file] st0 He; try reflexivity.
  - now apply HW in He.
  - now apply HD in He.
Qed.

Lemma within_same_cache (F : Effect -> Prop) st st' :
  (forall ns key value, ~ F (Cached ns key value)) ->
  within F st st' -> same_cache st st'.
Proof.
  intros HC. apply within_sound; [exact _ |].
  intros [c|l v|p|ns key value|file data|file] st0 He; try reflexivity.
  now apply HC in He.
Qed.

(** One store update is one effect. *)
Ltac effect_step :=
  match goal with
  | |- within _ ?st (log ?c ?st) => apply (within_effect _ (Called c))
  | |- within _ ?st (set_heap (update ?l (with_status ?v _) _) ?st) =>
      apply (within_effect _ (StatusSet l v))
  | |- within _ ?st (set_page ?p ?st) => apply (within_effect _ (PageSet p))
  | |- within _ ?st (set_cache (<[(?ns, ?key) := ?v]> _) ?st) =>
      apply (within_effect _ (Cached ns key v))
  | |- within _ ?st (set_files (<[?f := ?d]> _) ?st) => apply (within_effect _ (Written f d))
  | |- within _ ?st (set_files (delete ?f _) ?st) => apply (within_effect _ (Deleted f))
  end.

Ltac footprint := frame; try effect_step; simpl; auto.

(** A footprint contained in another. *)
Ltac included lemma :=
  eapply preserves_weaken; [apply lemma | intros [[]| | | | |]; simpl; tauto].

Lemma validateSelector_within env l : preserves (within validating) (validateSelector env l).
Proof. unfold validateSelector. footprint. Qed.
#[global] Hint Resolve validateSelector_within : frame.

Lemma check_selector_within env l : preserves (within validating) (check_selector env l).
Proof. unfold check_selector. frame. Qed.
#[global] Hint Resolve check_selector_within : frame.

Lemma clickElement_within env element : preserves (within clicking) (clickElement env element).
Proof.
  unfold clickElement. frame; try (included validateSelector_within).
  all: try effect_step; simpl; auto.
Qed.
#[global] Hint Resolve clickElement_within : frame.

Lemma click_callback_within env element clickErr :
  preserves (within clicking) (click_callback env element clickErr).
Proof. unfold click_callback. footprint. Qed.
#[global] Hint Resolve click_callback_within : frame.

Lemma join_callbacks_within env elements clickErr :
  preserves (within clicking) (join_callbacks env elements clickErr).
Proof.
  revert clickErr. induction elements as [|element rest IH]; intros clickErr; simpl; frame.
Qed.
#[global] Hint Resolve join_callbacks_within : frame.

Lemma click_all_within env clickBefore :
  preserves (within clicking) (click_all env clickBefore).
Proof. unfold click_all. frame. Qed.
#[global] Hint Resolve click_all_within : frame.

Lemma loadPage_within env url : preserves (within acquiring) (loadPage env url).
Proof. unfold loadPage. footprint. Qed.
#[global] Hint Resolve loadPage_within : frame.

Lemma prepare_within env r : preserves (within preparing) (prepare env r).
Proof.
  unfold prepare. frame.
  - eapply preserves_weaken; [apply loadPage_within | unfold preparing; tauto].
  - effect_step. right. exact I.
  - eapply preserves_weaken; [apply click_all_within | unfold preparing; tauto].
Qed.
#[global] Hint Resolve prepare_within : frame.

Lemma extract_within env l p file : preserves (within extracting) (extract env l p file).
Proof. unfold extract. footprint. Qed.
#[global] Hint Resolve extract_within : frame.

Lemma getContent_catch_within env l p file error :
  preserves (within cleaning) (getContent_catch env l p file error).
Proof. unfold getContent_catch. footprint. Qed.
#[global] Hint Resolve getContent_catch_within : frame.

(** *** The order in which the pre-clicks settle *)

Lemma insert_by_perm {A} (rank : A -> nat) x l : insert_by rank x l ≡ₚ x :: l.
Proof.
  induction l as [|y l IH]; simpl; [reflexivity |].
  destruct (Nat.leb (rank x) (rank y)); [reflexivity |].
  rewrite IH. apply perm_swap.
Qed.

Lemma sort_by_perm {A} (rank : A -> nat) l : sort_by rank l ≡ₚ l.
Proof.
  unfold sort_by. induction l as [|x l IH]; simpl; [reflexivity |].
  now rewrite insert_by_perm, IH.
Qed.

(** Every entry of the list settles, and nothing else does. *)
Lemma completion_order_elem env h elements x :
  x ∈ completion_order env h elements <-> x ∈ elements.
Proof.
  unfold completion_order.
  rewrite list_elem_of_fmap. setoid_rewrite elem_of_app.
  setoid_rewrite sort_by_perm. setoid_rewrite list_elem_of_In.
  setoid_rewrite List.filter_In. setoid_rewrite <- list_elem_of_In.
  setoid_rewrite elem_of_lookup_imap.
  split.
  - intros ([i y] & -> & [[(j & z & E & Hz) _] | [(j & z & E & Hz) _]]);
      inversion E; subst; simpl; eapply list_elem_of_lookup_2; eauto.
  - intros Hx. apply list_elem_of_lookup_1 in Hx as [i Hi].
    exists (i, x). split; [reflexivity |].
    destruct (settles_at_once h x) eqn:Hs; [left | right]; simpl; rewrite Hs; eauto.
Qed.

(** *** Entries that fail *)

Lemma clickElement_rejects env l st :
  fails_validation env (heap st l) = true \/ click_times_out env (heap st l) = true ->
  exists e st', clickElement env (Some l) st = (Throw (ThrowScraping e), st').
Proof.
  unfold fails_validation, click_times_out. intros H.
  cbv [clickElement bind deref try_catch ret throw].
  destruct (sel_path (heap st l)) as [p|] eqn:Hpath; [| eauto].
  destruct (unsupported (sel_language (heap st l))) eqn:Hlang; [eauto |].
  simpl in H.
  destruct (system_fault env (CValidateText (p +:+ " {}"))) as [d|] eqn:Hcheck.
  - pose proof (validateSelector_throws env l st d Hlang) as Hv.
    rewrite Hpath in Hv. simpl in Hv. rewrite (Hv Hcheck). eauto.
  - pose proof (validateSelector_clean env l st Hlang) as Hv.
    rewrite Hpath in Hv. simpl in Hv. rewrite (Hv Hcheck).
    cbn [resp_status new_DataSelectorValidityResponse resp_selector heap set_heap].
    rewrite update_same.
    destruct (css_valid env (p +:+ " {}")); cbn [with_status sel_status]; [| eauto].
    destruct H as [H | H]; [discriminate |].
    cbv [page_click browser_call bind].
    destruct (browser_fault env (CClick p)) as [e|]; [| discriminate].
    cbn. rewrite H. eauto.
Qed.

(** A callback never rejects; an error already recorded is never forgotten. *)
Lemma click_callback_settles env element clickErr st :
  exists c st', click_callback env element clickErr st = (Ok c, st') /\
                (is_Some clickErr -> is_Some c).
Proof.
  unfold click_callback. destruct element as [l|]; [| cbv [ret]; eauto].
  unfold try_catch.
  destruct ((clickElement env (Some l) >> page_waitForTimeout env 500 >> ret clickErr) st)
    as [[c|e] st1] eqn:E.
  - apply bind_inv in E as [(e & _ & ?) | (a & st2 & _ & E)]; [discriminate |].
    apply bind_inv in E as [(e & _ & ?) | (b & st3 & _ & E)]; [discriminate |].
    inversion E; subst. eauto.
  - cbv [ret]. eauto.
Qed.

Lemma click_callback_records env l clickErr st :
  fails_validation env (heap st l) = true \/ click_times_out env (heap st l) = true ->
  exists err st', click_callback env (Some l) clickErr st = (Ok (Some err), st').
Proof.
  intros H. destruct (clickElement_rejects env l st H) as (e & st' & E).
  unfold click_callback.
  erewrite try_catch_Throw; [| apply bind_Throw; exact E].
  cbv [ret]. eauto.
Qed.

Lemma join_callbacks_settles env elements clickErr st :
  exists c st', join_callbacks env elements clickErr st = (Ok c, st') /\
                (is_Some clickErr -> is_Some c).
Proof.
  revert clickErr st. induction elements as [|element rest IH]; intros clickErr st; simpl.
  - cbv [ret]. eauto.
  - destruct (click_callback_settles env element clickErr st) as (c1 & st1 & E1 & H1).
    rewrite (bind_Ok _ _ _ _ _ E1).
    destruct (IH c1 st1) as (c & st' & E & H). eauto 6.
Qed.

Lemma doomed_same_selectors env st st' l :
  same_selectors st st' ->
  fails_validation env (heap st l) = true \/ click_times_out env (heap st l) = true ->
  fails_validation env (heap st' l) = true \/ click_times_out env (heap st' l) = true.
Proof.
  intros Hs. destruct (Hs l) as [Hp Hl].
  unfold fails_validation, click_times_out. now rewrite Hp, Hl.
Qed.

Lemma join_callbacks_records env elements clickErr st l :
  Some l ∈ elements ->
  fails_validation env (heap st l) = true \/ click_times_out env (heap st l) = true ->
  exists err st', join_callbacks env elements clickErr st = (Ok (Some err), st').
Proof.
  revert clickErr st. induction elements as [|element rest IH]; intros clickErr st Hin Hl.
  - inversion Hin.
  - simpl. apply elem_of_cons in Hin as [<- | Hin].
    + destruct (click_callback_records env l clickErr st Hl) as (err & st1 & E1).
      rewrite (bind_Ok _ _ _ _ _ E1).
      destruct (join_callbacks_settles env rest (Some err) st1) as (c & st' & E & H).
      destruct H as [err' ->]; eauto.
    + destruct (click_callback_settles env element clickErr st) as (c1 & st1 & E1 & _).
      rewrite (bind_Ok _ _ _ _ _ E1).
      apply IH; [exact Hin |].
      eapply doomed_same_selectors; [| exact Hl].
      eapply within_same_selectors, click_callback_within, E1.
Qed.

(** As soon as one entry fails, the whole pre-click stage throws. *)
Lemma click_all_throws env clickBefore st l :
  Some l ∈ clickBefore ->
  fails_validation env (heap st l) = true \/ click_times_out env (heap st l) = true ->
  exists err st', click_all env clickBefore st = (Throw err, st').
Proof.
  intros Hin Hl. unfold click_all, bind at 1, get.
  apply (completion_order_elem env (heap st)) in Hin.
  destruct (join_callbacks_records env _ None st l Hin Hl) as (err & st' & E).
  rewrite (bind_Ok _ _ _ _ _ E). cbv [throw]. eauto.
Qed.

(** ** The entry point *)

#[global] Instance no_file_created_order : StoreOrder no_file_created.
Proof.
  split; unfold no_file_created.
  - reflexivity.
  - intros st1 st2 st3 H12 H23. now transitivity (files st2).
Qed.

Lemma within_no_file_created (F : Effect -> Prop) st st' :
  (forall file data, ~ F (Written file data)) ->
  within F st st' -> no_file_created st st'.
Proof.
  intros HW. apply within_sound; [exact _ |].
  intros [c|l v|p|ns key value|file data|file] st0 He;
    unfold no_file_created; simpl; try reflexivity.
  - now apply HW in He.
  - apply delete_subseteq.
Qed.

(** The shape of a run of [getContent] on a request with a selector and a path. *)
Lemma getContent_run env r l p st :
  req_selector r = Some l ->
  sel_path (heap st l) = Some p ->
  getContent env (Some r) st =
    match check_selector env l st with
    | (Ok (Some e), st1) => (Throw (ThrowScraping e), st1)
    | (Ok None, st1) =>
        match try_catch (prepare env r >> extract env l p (screenshotPath (req_url r)))
                (getContent_catch env l p (screenshotPath (req_url r))) st1 with
        | (Ok (Resolve content), st2) => (Ok content, st2)
        | (Ok (Reject error), st2) => (Throw (ThrowScraping error), st2)
        | (Throw e, st2) => (Throw e, st2)
        end
    | (Throw e, st1) => (Throw e, st1)
    end.
Proof.
  intros Hsel Hpath. unfold getContent. rewrite Hsel.
  unfold bind at 1, deref. rewrite Hpath. unfold bind at 1.
  destruct (check_selector env l st) as [[[e|]|e] st1]; try reflexivity.
  unfold bind at 1.
  destruct (try_catch _ _ st1) as [[[content|error]|e] st2]; reflexivity.
Qed.

(** The validation block always hands back its verdict. *)
Lemma check_selector_settles env l st :
  exists early st1, check_selector env l st = (Ok early, st1).
Proof.
  unfold check_selector, try_catch.
  destruct (bind (validateSelector env l) _ st) as [[early|e] st1] eqn:E; cbv [ret]; eauto.
Qed.

(** The [catch] block always rejects, with a [ScrapingError]. *)
Lemma getContent_catch_rejects env l p file error st :
  exists e st', getContent_catch env l p file error st = (Throw (ThrowScraping e), st').
Proof.
  unfold getContent_catch. destruct (is_TimeoutError error); [cbv [throw]; eauto |].
  unfold bind, try_catch.
  destruct (unlink env file st) as [[[]|e] st1]; cbv [ret throw]; destruct error; eauto.
Qed.

Lemma prepare_throws env r clickBefore st l :
  req_clickBefore r = Some clickBefore ->
  Some l ∈ clickBefore ->
  fails_validation env (heap st l) = true \/ click_times_out env (heap st l) = true ->
  exists err st', prepare env r st = (Throw err, st').
Proof.
  intros Hcb Hin Hl. unfold prepare. rewrite Hcb.
  destruct (loadPage env (req_url r) st) as [[[]|e] st1] eqn:E1;
    [| rewrite (bind_Throw _ _ _ _ _ E1); eauto].
  rewrite (bind_Ok _ _ _ _ _ E1).
  destruct (page_waitForTimeout env 500 st1) as [[[]|e] st2] eqn:E2;
    [| rewrite (bind_Throw _ _ _ _ _ E2); eauto].
  rewrite (bind_Ok _ _ _ _ _ E2).
  apply click_all_throws with (l := l); [exact Hin |].
  eapply doomed_same_selectors; [| exact Hl].
  eapply store_trans; eapply within_same_selectors.
  - eapply loadPage_within, E1.
  - assert (preserves (within clicking) (page_waitForTimeout env 500)) as Hw by footprint.
    eapply Hw, E2.
Qed.

Lemma getContent_aborts env r clickBefore entry st :
  req_clickBefore r = Some clickBefore ->
  Some entry ∈ clickBefore ->
  fails_validation env (heap st entry) = true \/
    click_times_out env (heap st entry) = true ->
  rejects (fst (getContent env (Some r) st)) /\
  within aborting st (snd (getContent env (Some r) st)).
Proof.
  intros Hcb Hin Hentry.
  assert (Hstart : within aborting st st) by apply store_refl.
  destruct (req_selector r) as [l|] eqn:Hsel;
    [| unfold getContent; rewrite Hsel; split; [exact I | exact Hstart]].
  destruct (sel_path (heap st l)) as [p|] eqn:Hpath;
    [| unfold getContent, bind, deref; rewrite Hsel, Hpath;
       split; [exact I | exact Hstart]].
  rewrite (getContent_run env r l p st Hsel Hpath).
  destruct (check_selector_settles env l st) as (early & st1 & E1). rewrite E1.
  assert (H1 : within aborting st st1).
  { eapply within_weaken; [| eapply check_selector_within, E1]. unfold aborting. tauto. }
  destruct early as [e|]; [split; [exact I | exact H1] |].
  assert (Hentry1 : fails_validation env (heap st1 entry) = true \/
                    click_times_out env (heap st1 entry) = true).
  { eapply doomed_same_selectors; [| exact Hentry].
    eapply within_same_selectors, H1. }
  destruct (prepare_throws env r clickBefore st1 entry Hcb Hin Hentry1) as (err & st2 & E2).
  assert (H2 : within aborting st1 st2).
  { eapply within_weaken; [| eapply prepare_within, E2]. unfold aborting. tauto. }
  erewrite try_catch_Throw; [| apply bind_Throw; exact E2].
  destruct (getContent_catch_rejects env l p (screenshotPath (req_url r)) err st2)
    as (e & st3 & E3).
  rewrite E3.
  assert (H3 : within aborting st2 st3).
  { eapply within_weaken; [| eapply getContent_catch_within, E3]. unfold aborting. tauto. }
  split; [exact I |].
  eapply store_trans; [exact H1 |]. eapply store_trans; eassumption.
Qed.

(** C2.  When an entry of [clickBefore] fails validation or its click times
    out, [getContent] fails, and the extraction is never attempted: no text
    content is read, no screenshot is taken, no file is created. *)
Theorem failed_preclick_aborts env r clickBefore entry st :
  req_clickBefore r = Some clickBefore ->
  Some entry ∈ clickBefore ->
  fails_validation env (heap st entry) = true \/
    click_times_out env (heap st entry) = true ->
  rejects (fst (getContent env (Some r) st)) /\
  emits (fun c => ~ extraction_call c) st (snd (getContent env (Some r) st)) /\
  no_file_created st (snd (getContent env (Some r) st)).
Proof.
  intros Hcb Hin Hentry.
  destruct (getContent_aborts env r clickBefore entry st Hcb Hin Hentry) as [Hfails Hw].
  split; [exact Hfails |]. split.
  - eapply within_emits; [| exact Hw].
    intros c [Hc | [[Hc | Hc] | Hc]]; destruct c; simpl in *; tauto.
  - eapply within_no_file_created; [| exact Hw].
    intros file data [Hc | [[Hc | Hc] | Hc]]; exact Hc.
Qed.

Lemma failed_preclick_aborts_witness :
  let env := world popup_never_appears no_fault in
  let r := request 0 (Some [Some 2]) (Some true) in
  rejects (fst (getContent env (Some r) fresh)) /\
  emits (fun c => ~ extraction_call c) fresh (snd (getContent env (Some r) fresh)) /\
  no_file_created fresh (snd (getContent env (Some r) fresh)).
Proof.
  apply (failed_preclick_aborts _ _ [Some 2] 2).
  - reflexivity.
  - constructor.
  - right. reflexivity.
Defined.

Lemma clickElement_classification_witness :
  fst (clickElement calm (Some 2) fresh) = Ok true /\
  status_of (fst (clickElement (world popup_never_appears no_fault) (Some 2) fresh))
    = Some ELEMENT_NOT_FOUND /\
  status_of (fst (clickElement calm (Some 1) fresh)) = Some INVALID_SELECTOR.
Proof.
  split; [| split].
  - destruct (clickElement_classification calm 2 ".a-popup-selector" fresh
                eq_refl (or_introl eq_refl) eq_refl) as [_ H].
    destruct (H eq_refl) as (_ & _ & H3). apply H3. reflexivity.
  - destruct (clickElement_classification (world popup_never_appears no_fault) 2
                ".a-popup-selector" fresh eq_refl (or_introl eq_refl) eq_refl) as [_ H].
    destruct (H eq_refl) as (H1 & _ & _). apply (H1 TimeoutError); reflexivity.
  - destruct (clickElement_classification calm 1 ".a-bad-selector" fresh
                eq_refl (or_introl eq_refl) eq_refl) as [H _].
    apply H. reflexivity.
Defined.

(** *** Entries in an unsupported language *)

Lemma clickElement_resolves env l p st :
  sel_path (heap st l) = Some p ->
  unsupported (sel_language (heap st l)) = false ->
  system_fault env (CValidateText (p +:+ " {}")) = None ->
  css_valid env (p +:+ " {}") = true ->
  browser_fault env (CClick p) = None ->
  exists st', clickElement env (Some l) st = (Ok true, st').
Proof.
  intros Hpath Hlang Hclean Hvalid Hclick.
  pose proof (validateSelector_clean env l st Hlang) as Hv.
  rewrite Hpath in Hv. simpl in Hv. specialize (Hv Hclean).
  cbv [clickElement bind deref try_catch ret].
  rewrite Hpath, Hlang, Hv.
  cbn [resp_status new_DataSelectorValidityResponse resp_selector heap set_heap].
  rewrite update_same, Hvalid. cbn.
  cbv [page_click browser_call bind]. rewrite Hclick. cbn. eauto.
Qed.

Lemma click_callback_generic env x clickErr st :
  browser_fault env (CWaitForTimeout 500) = None ->
  fails_later env (heap st x) = false ->
  generic_or_none clickErr ->
  exists c st', click_callback env (Some x) clickErr st = (Ok c, st') /\ generic_or_none c.
Proof.
  intros Hwait Hx Hc. unfold fails_later, fails_validation in Hx.
  unfold click_callback.
  destruct (sel_path (heap st x)) as [p|] eqn:Hpath.
  - destruct (unsupported (sel_language (heap st x))) eqn:Hlang.
    + erewrite try_catch_Throw.
      2:{ apply bind_Throw. cbv [clickElement bind deref throw].
          rewrite Hpath, Hlang. reflexivity. }
      cbv [ret]. eexists _, _. split; [reflexivity | reflexivity].
    + simpl in Hx.
      destruct (system_fault env (CValidateText (p +:+ " {}"))) eqn:Hclean;
        [discriminate |].
      destruct (css_valid env (p +:+ " {}")) eqn:Hvalid; [| discriminate].
      destruct (browser_fault env (CClick p)) eqn:Hclick; [discriminate |].
      destruct (clickElement_resolves env x p st Hpath Hlang Hclean Hvalid Hclick)
        as (st1 & E1).
      erewrite try_catch_Ok.
      2:{ rewrite (bind_Ok _ _ _ _ _ E1).
          unfold bind, page_waitForTimeout, browser_call. rewrite Hwait. reflexivity. }
      eauto.
  - erewrite try_catch_Throw.
    2:{ apply bind_Throw. cbv [clickElement bind deref throw].
        rewrite Hpath. reflexivity. }
    cbv [ret]. eexists _, _. split; [reflexivity | reflexivity].
Qed.

Lemma fails_later_same_selectors env st st' l :
  same_selectors st st' -> fails_later env (heap st' l) = fails_later env (heap st l).
Proof.
  intros Hs. destruct (Hs l) as [Hp Hl].
  unfold fails_later, fails_validation. now rewrite Hp, Hl.
Qed.

Lemma join_callbacks_generic env elements clickErr st :
  browser_fault env (CWaitForTimeout 500) = None ->
  (forall x, Some x ∈ elements -> fails_later env (heap st x) = false) ->
  generic_or_none clickErr ->
  exists c st', join_callbacks env elements clickErr st = (Ok c, st') /\ generic_or_none c.
Proof.
  intros Hwait. revert clickErr st.
  induction elements as [|element rest IH]; intros clickErr st Hall Hc; simpl.
  - cbv [ret]. eauto.
  - assert (exists c1 st1, click_callback env element clickErr st = (Ok c1, st1)
                           /\ generic_or_none c1) as (c1 & st1 & E1 & H1).
    { destruct element as [x|].
      - apply click_callback_generic; [exact Hwait | | exact Hc].
        apply Hall. constructor.
      - simpl. cbv [ret]. eauto. }
    rewrite (bind_Ok _ _ _ _ _ E1). apply IH; [| exact H1].
    intros x Hx.
    rewrite (fails_later_same_selectors env st st1).
    + apply Hall. now constructor.
    + eapply within_same_selectors, click_callback_within, E1.
Qed.

Lemma getContent_catch_rethrows env l p file e st :
  exists st', getContent_catch env l p file (ThrowScraping e) st
              = (Throw (ThrowScraping e), st').
Proof.
  unfold getContent_catch. simpl. unfold bind, try_catch.
  destruct (unlink env file st) as [[[]|e'] st1]; cbv [ret throw]; eauto.
Qed.

Lemma unsupported_fails_validation env s lang :
  sel_language s = Some lang -> lang <> "css" -> fails_validation env s = true.
Proof.
  intros Hlang Hcss. unfold fails_validation. rewrite Hlang. simpl.
  destruct (String.eqb_spec lang "css"); [contradiction | reflexivity].
Qed.

Lemma click_all_generic env clickBefore entry st :
  browser_fault env (CWaitForTimeout 500) = None ->
  (forall x, Some x ∈ clickBefore -> fails_later env (heap st x) = false) ->
  Some entry ∈ clickBefore ->
  fails_validation env (heap st entry) = true ->
  exists e st', click_all env clickBefore st = (Throw (ThrowScraping e), st') /\
                err_status e = ERROR.
Proof.
  intros Hwait Hall Hin Hentry. unfold click_all, bind at 1, get.
  destruct (join_callbacks_generic env (completion_order env (heap st) clickBefore) None st)
    as (c & st' & E & Hc); [exact Hwait | | exact I |].
  { intros x Hx. apply Hall. now apply completion_order_elem in Hx. }
  destruct (join_callbacks_records env (completion_order env (heap st) clickBefore) None st entry)
    as (err & st'' & E'); [now apply completion_order_elem | now left |].
  rewrite E in E'. inversion E'; subst.
  rewrite (bind_Ok _ _ _ _ _ E).
  destruct err as [e|e|e]; simpl in Hc; try contradiction.
  cbv [throw]. eauto.
Qed.

(** C10, as the code has it.  A pre-click entry with a path and a language
    other than css is rejected by [clickElement] at once, by a check of its
    own made before the validator is called: the rejection is a
    [ScrapingError] of status [ERROR] naming the language, and the store is
    untouched.  Every request holding such an entry fails; it fails with
    status [ERROR] when it reaches the pre-clicks (the primary selector passes
    validation, the page is acquired, the settle pause does not throw) and no
    entry fails in the checker or in the browser, whose errors are recorded
    after this one and would replace it. *)
Theorem unsupported_preclick_language env entry p lang st :
  sel_path (heap st entry) = Some p ->
  sel_language (heap st entry) = Some lang ->
  lang <> "css" ->
  clickElement env (Some entry) st =
    (Throw (ThrowScraping
       {| err_message := "Unsupported language " +:+ lang
                         +:+ ", only CSS is currently supported";
          err_status := ERROR; err_selector := Some entry |}),
     st)
  /\
  forall r clickBefore,
    req_clickBefore r = Some clickBefore ->
    Some entry ∈ clickBefore ->
    rejects (fst (getContent env (Some r) st)) /\
    forall l,
      req_selector r = Some l ->
      fst (check_selector env l st) = Ok None ->
      fst (loadPage env (req_url r) (snd (check_selector env l st))) = Ok tt ->
      browser_fault env (CWaitForTimeout 500) = None ->
      (forall x, Some x ∈ clickBefore -> fails_later env (heap st x) = false) ->
      status_of (fst (getContent env (Some r) st)) = Some ERROR.
Proof.
  intros Hpath Hlang Hcss.
  pose proof (unsupported_fails_validation env _ lang Hlang Hcss) as Hfails.
  split.
  { cbv [clickElement bind deref throw]. rewrite Hpath, Hlang. simpl.
    destruct (String.eqb_spec lang "css"); [contradiction | reflexivity]. }
  intros r clickBefore Hcb Hin. split.
  { apply (getContent_aborts env r clickBefore entry st Hcb Hin). now left. }
  intros l Hsel Hcheck Hload Hwait Hall.
  destruct (sel_path (heap st l)) as [p0|] eqn:Hp0;
    [| unfold getContent, bind, deref; rewrite Hsel, Hp0; reflexivity].
  rewrite (getContent_run env r l p0 st Hsel Hp0).
  destruct (check_selector env l st) as [early st1] eqn:E1. simpl in Hcheck, Hload. subst early.
  destruct (loadPage env (req_url r) st1) as [loaded st2] eqn:E2. simpl in Hload. subst loaded.
  assert (Hs : same_selectors st (log (CWaitForTimeout 500) st2)).
  { eapply store_trans; [eapply within_same_selectors, check_selector_within, E1 |].
    eapply store_trans; [eapply within_same_selectors, loadPage_within, E2 |].
    apply same_selectors_heap. reflexivity. }
  destruct (click_all_generic env clickBefore entry (log (CWaitForTimeout 500) st2))
    as (e & st3 & E3 & He); [exact Hwait | | exact Hin | |].
  { intros x Hx. rewrite (fails_later_same_selectors env st _ x Hs). now apply Hall. }
  { destruct (doomed_same_selectors env st _ entry Hs (or_introl Hfails)) as [H | H];
      [exact H |].
    unfold fails_validation. destruct (Hs entry) as [_ ->]. rewrite Hlang. simpl.
    destruct (String.eqb_spec lang "css"); [contradiction | reflexivity]. }
  assert (Hprep : prepare env r st1 = (Throw (ThrowScraping e), st3)).
  { unfold prepare. rewrite (bind_Ok _ _ _ _ _ E2), Hcb.
    unfold bind at 1, page_waitForTimeout, browser_call. rewrite Hwait. exact E3. }
  erewrite try_catch_Throw; [| apply bind_Throw; exact Hprep].
  destruct (getContent_catch_rethrows env l p0 (screenshotPath (req_url r)) e st3)
    as (st4 & E4).
  rewrite E4. simpl. now rewrite He.
Qed.

Lemma unsupported_preclick_language_witness :
  status_of (fst (clickElement calm (Some 3) fresh)) = Some ERROR /\
  snd (clickElement calm (Some 3) fresh) = fresh /\
  status_of (fst (getContent calm (Some (request 0 (Some [Some 3]) None)) fresh))
    = Some ERROR.
Proof.
  destruct (unsupported_preclick_language calm 3 "//div" "xpath" fresh eq_refl eq_refl)
    as [Hclick Hrequest]; [discriminate |].
  split; [| split].
  - now rewrite Hclick.
  - now rewrite Hclick.
  - destruct (Hrequest (request 0 (Some [Some 3]) None) [Some 3] eq_refl) as [_ Hstatus].
    + constructor.
    + apply (Hstatus 0); try reflexivity.
      intros x Hx. apply list_elem_of_singleton in Hx. inversion Hx; subst. reflexivity.
Defined.

(** C10 as stated does not hold: with an xpath entry followed by an entry
    whose click times out, the request fails with [ELEMENT_NOT_FOUND], the
    error recorded last, and not with [ERROR]. *)
Lemma unsupported_preclick_not_always_ERROR :
  let env := world popup_never_appears no_fault in
  let r := request 0 (Some [Some 3; Some 2]) None in
  sel_path (sample_heap 3) = Some "//div" /\
  sel_language (sample_heap 3) = Some "xpath" /\
  status_of (fst (clickElement env (Some 3) fresh)) = Some ERROR /\
  status_of (fst (getContent env (Some r) fresh)) = Some ELEMENT_NOT_FOUND.
Proof. vm_compute. repeat split. Qed.

(** *** The primary selector *)

Lemma check_selector_invalid env l p st :
  sel_path (heap st l) = Some p ->
  unsupported (sel_language (heap st l)) = false ->
  system_fault env (CValidateText (p +:+ " {}")) = None ->
  css_valid env (p +:+ " {}") = false ->
  check_selector env l st =
    (Ok (Some {| err_message := "Invalid selector " +:+ show_object;
                 err_status := INVALID_SELECTOR; err_selector := Some l |}),
     set_heap (update l (with_status INVALID (heap st l)) (heap st))
       (log (CValidateText (p +:+ " {}")) st)).
Proof.
  intros Hpath Hlang Hclean Hinvalid.
  pose proof (validateSelector_clean env l st Hlang) as Hv.
  rewrite Hpath in Hv. simpl in Hv. specialize (Hv Hclean). rewrite Hinvalid in Hv.
  cbv [check_selector bind deref try_catch ret]. rewrite Hv.
  cbn [resp_status new_DataSelectorValidityResponse resp_selector heap set_heap].
  rewrite update_same. reflexivity.
Qed.

(** C5, as the code has it.  A request whose primary selector has no path
    is rejected as an invalid call, with status [ERROR], the store untouched.
    A request whose primary selector is found invalid by the checker (the
    empty path included, when the checker rejects the rule " {}") is rejected
    with status [INVALID_SELECTOR]; all that has happened by then is the call
    to the checker and the status written into the selector: no browser was
    launched, no page navigated to or read, cache and files are as before. *)
Theorem invalid_primary_selector env r l st :
  req_selector r = Some l ->
  (sel_path (heap st l) = None ->
   getContent env (Some r) st =
     (Throw (ThrowScraping
        {| err_message := "invalid call"; err_status := ERROR; err_selector := None |}),
      st))
  /\
  (forall p,
     sel_path (heap st l) = Some p ->
     sel_language (heap st l) = None \/ sel_language (heap st l) = Some "css" ->
     system_fault env (CValidateText (p +:+ " {}")) = None ->
     css_valid env (p +:+ " {}") = false ->
     status_of (fst (getContent env (Some r) st)) = Some INVALID_SELECTOR /\
     snd (getContent env (Some r) st) =
       set_heap (update l (with_status INVALID (heap st l)) (heap st))
         (log (CValidateText (p +:+ " {}")) st)).
Proof.
  intros Hsel. split.
  - intros Hpath. unfold getContent, bind, deref. now rewrite Hsel, Hpath.
  - intros p Hpath Hlang Hclean Hinvalid. apply supported_language in Hlang.
    rewrite (getContent_run env r l p st Hsel Hpath).
    rewrite (check_selector_invalid env l p st Hpath Hlang Hclean Hinvalid).
    split; reflexivity.
Qed.

Lemma invalid_primary_selector_witness :
  status_of (fst (getContent calm (Some (request 1 None (Some false))) fresh))
    = Some INVALID_SELECTOR /\
  trace (snd (getContent calm (Some (request 1 None (Some false))) fresh))
    = [CValidateText ".a-bad-selector {}"] /\
  status_of (fst (getContent calm (Some (request 6 None None)) fresh))
    = Some INVALID_SELECTOR.
Proof.
  destruct (invalid_primary_selector calm (request 1 None (Some false)) 1 fresh eq_refl)
    as [_ H1].
  destruct (H1 ".a-bad-selector" eq_refl (or_introl eq_refl) eq_refl eq_refl) as [Hs Ht].
  destruct (invalid_primary_selector calm (request 6 None None) 6 fresh eq_refl)
    as [_ H6].
  destruct (H6 "" eq_refl (or_introl eq_refl) eq_refl eq_refl) as [Hs6 _].
  split; [exact Hs | split; [now rewrite Ht | exact Hs6]].
Defined.

(** C5 as stated does not hold for a primary selector without a path: the
    request is rejected with status [ERROR], not [INVALID_SELECTOR]. *)
Lemma undefined_path_is_ERROR :
  sel_path (sample_heap 5) = None /\
  getContent calm (Some (request 5 None None)) fresh =
    (Throw (ThrowScraping
       {| err_message := "invalid call"; err_status := ERROR; err_selector := None |}),
     fresh).
Proof. split; reflexivity. Qed.

(** *** Extraction *)

Lemma getContent_catch_external env l p file x st :
  exists e st',
    getContent_catch env l p file (ThrowExternal x) st = (Throw (ThrowScraping e), st') /\
    err_status e = (if ext_timeout x then NO_CONTENT else ERROR).
Proof.
  unfold getContent_catch. simpl. destruct (ext_timeout x).
  - cbv [throw]. eauto.
  - unfold bind, try_catch.
    destruct (unlink env file st) as [[[]|e'] st1]; cbv [ret throw]; eauto.
Qed.

(** What the protected part of [getContent] yields once the page is prepared
    and the text read is empty or null. *)
Lemma extract_empty env l p file st :
  browser_fault env (CTextContent p) = None ->
  dom_text env (page st) p = None \/ dom_text env (page st) p = Some "" ->
  exists settled st',
    try_catch (extract env l p file) (getContent_catch env l p file) st = (settled, st') /\
    match settled with
    | Ok (Resolve _) => False
    | Ok (Reject e) | Throw (ThrowScraping e) =>
        err_status e = (if screenshot_step_fails env p file then ERROR else NO_CONTENT)
    | Throw _ => False
    end.
Proof.
  intros Htext Hempty. unfold screenshot_step_fails.
  unfold try_catch, extract, bind at 1, locator_textContent, bind at 1, browser_call.
  rewrite Htext. unfold bind at 1, get, ret.
  unfold bind at 1, locator_screenshot, bind at 1, browser_call.
  destruct (browser_fault env (CScreenshot p file)) as [x|].
  { destruct (getContent_catch_external env l p file x
                (log (CScreenshot p file) (log (CTextContent p) st))) as (e & st' & E & He).
    rewrite E. eexists _, _. split; [reflexivity |]. simpl. rewrite He.
    now destruct (ext_timeout x). }
  unfold modify, bind at 1, readFile, bind at 1, system_call.
  destruct (system_fault env (CReadFile file)) as [d|].
  { match goal with |- context [getContent_catch _ _ _ _ (ThrowExternal ?x) ?s] =>
      destruct (getContent_catch_external env l p file x s) as (e & st' & E & He) end.
    rewrite E. eexists _, _. split; [reflexivity | exact He]. }
  unfold bind at 1, get, ret. cbn [files set_files log]. rewrite lookup_insert_eq.
  unfold bind at 1, unlink, bind at 1, system_call.
  destruct (system_fault env (CUnlink file)) as [d|].
  { match goal with |- context [getContent_catch _ _ _ _ (ThrowExternal ?x) ?s] =>
      destruct (getContent_catch_external env l p file x s) as (e & st' & E & He) end.
    rewrite E. eexists _, _. split; [reflexivity | exact He]. }
  unfold bind at 1, get, ret. cbn [files set_files log]. rewrite lookup_insert_eq.
  unfold modify. cbn [page log]. 
  destruct Hempty as [-> | ->]; eexists _, _; (split; [reflexivity | reflexivity]).
Qed.

Lemma extract_timeout env l p file x st :
  browser_fault env (CTextContent p) = Some x ->
  ext_timeout x = true ->
  exists e st',
    try_catch (extract env l p file) (getContent_catch env l p file) st
      = (Throw (ThrowScraping e), st') /\
    err_status e = NO_CONTENT.
Proof.
  intros Htext Hx.
  unfold try_catch, extract, bind at 1, locator_textContent, bind at 1, browser_call.
  rewrite Htext.
  destruct (getContent_catch_external env l p file x (log (CTextContent p) st))
    as (e & st' & E & He).
  rewrite E. rewrite Hx in He. eauto.
Qed.

(** C9, as the code has it.  A request that reaches the extraction (its
    primary selector passed validation, the page was prepared) and whose text
    is empty or absent never succeeds.  It is rejected with [NO_CONTENT] when
    waiting for the node times out; when the text read is the empty string or
    null, the two being treated alike, it is rejected with [NO_CONTENT]
    provided the screenshot, its read-back and its deletion go through or the
    screenshot times out, and with [ERROR] when one of these steps fails
    otherwise, since the text is only looked at after them. *)
Theorem empty_text_is_not_Success env r l p st :
  req_selector r = Some l ->
  sel_path (heap st l) = Some p ->
  fst (check_selector env l st) = Ok None ->
  fst (prepare env r (snd (check_selector env l st))) = Ok tt ->
  let ready := snd (prepare env r (snd (check_selector env l st))) in
  let file := screenshotPath (req_url r) in
  let result := fst (getContent env (Some r) st) in
  (forall x, browser_fault env (CTextContent p) = Some x -> ext_timeout x = true ->
     rejects result /\ status_of result = Some NO_CONTENT) /\
  (browser_fault env (CTextContent p) = None ->
   dom_text env (page ready) p = None \/ dom_text env (page ready) p = Some "" ->
     rejects result /\
     status_of result = Some (if screenshot_step_fails env p file then ERROR else NO_CONTENT)).
Proof.
  intros Hsel Hpath Hcheck Hprep ready file result. subst ready file result.
  rewrite (getContent_run env r l p st Hsel Hpath).
  destruct (check_selector env l st) as [early st1] eqn:E1. simpl in *. subst early.
  destruct (prepare env r st1) as [done st2] eqn:E2. simpl in *. subst done.
  assert (Hbody : forall h,
    try_catch (prepare env r >> extract env l p (screenshotPath (req_url r))) h st1
    = try_catch (extract env l p (screenshotPath (req_url r))) h st2).
  { intros h. unfold try_catch. now rewrite (bind_Ok _ _ _ _ _ E2). }
  rewrite Hbody. split.
  - intros x Hx Htimeout.
    destruct (extract_timeout env l p (screenshotPath (req_url r)) x st2 Hx Htimeout)
      as (e & st' & E & He).
    rewrite E. simpl. now rewrite He.
  - intros Htext Hempty.
    destruct (extract_empty env l p (screenshotPath (req_url r)) st2 Htext Hempty)
      as (settled & st' & E & Hs).
    rewrite E. destruct settled as [[c|e]|[e|e|e]]; try contradiction; simpl; now rewrite Hs.
Qed.

Lemma empty_text_is_not_Success_witness :
  status_of (fst (getContent calm (Some (request 4 None None)) fresh)) = Some NO_CONTENT /\
  status_of (fst (getContent (world node_never_appears no_fault)
                    (Some (request 0 None None)) fresh)) = Some NO_CONTENT.
Proof.
  split.
  - destruct (empty_text_is_not_Success calm (request 4 None None) 4 ".empty" fresh
                eq_refl eq_refl eq_refl eq_refl) as [_ H].
    apply H; [reflexivity | right; reflexivity].
  - destruct (empty_text_is_not_Success (world node_never_appears no_fault)
                (request 0 None None) 0 ".a-good-selector" fresh
                eq_refl eq_refl eq_refl eq_refl) as [H _].
    apply (H TimeoutError); reflexivity.
Defined.

(** C9 as stated does not hold: the text under [.empty] is the empty string,
    the screenshot cannot be written, and the request is rejected with
    [ERROR], not [NO_CONTENT]. *)
Lemma empty_text_not_always_NO_CONTENT :
  let env := world disk_full no_fault in
  let r := request 4 None None in
  fst (check_selector env 4 fresh) = Ok None /\
  fst (prepare env r (snd (check_selector env 4 fresh))) = Ok tt /\
  dom_text env (page (snd (prepare env r (snd (check_selector env 4 fresh))))) ".empty"
    = Some "" /\
  status_of (fst (getContent env (Some r) fresh)) = Some ERROR.
Proof. vm_compute. repeat split. Qed.

(** *** The screenshot file *)

(** The library calls of the extraction, run on a store. *)
Lemma locator_textContent_run env p st :
  locator_textContent env p st =
    match browser_fault env (CTextContent p) with
    | Some x => (Throw (ThrowExternal x), log (CTextContent p) st)
    | None => (Ok (dom_text env (page st) p), log (CTextContent p) st)
    end.
Proof.
  cbv [locator_textContent bind browser_call get ret].
  destruct (browser_fault env (CTextContent p)); reflexivity.
Qed.

Lemma locator_screenshot_run env p file st :
  locator_screenshot env p file st =
    match browser_fault env (CScreenshot p file) with
    | Some x => (Throw (ThrowExternal x), log (CScreenshot p file) st)
    | None =>
        (Ok tt, set_files (<[file := dom_image env (page st) p]> (files st))
                  (log (CScreenshot p file) st))
    end.
Proof.
  cbv [locator_screenshot bind browser_call modify].
  destruct (browser_fault env (CScreenshot p file)); reflexivity.
Qed.

Lemma readFile_run env file st :
  readFile env file st =
    match system_fault env (CReadFile file) with
    | Some d =>
        (Throw (ThrowExternal {| ext_timeout := false; ext_description := d |}),
         log (CReadFile file) st)
    | None =>
        match files st !! file with
        | Some data => (Ok data, log (CReadFile file) st)
        | None => (Throw (ENOENT file), log (CReadFile file) st)
        end
    end.
Proof.
  cbv [readFile bind system_call get ret throw].
  destruct (system_fault env (CReadFile file)); [reflexivity |].
  cbn [files log]. destruct (files st !! file); reflexivity.
Qed.

Lemma unlink_run env file st :
  unlink env file st =
    match system_fault env (CUnlink file) with
    | Some d =>
        (Throw (ThrowExternal {| ext_timeout := false; ext_description := d |}),
         log (CUnlink file) st)
    | None =>
        match files st !! file with
        | Some _ => (Ok tt, set_files (delete file (files st)) (log (CUnlink file) st))
        | None => (Throw (ENOENT file), log (CUnlink file) st)
        end
    end.
Proof.
  cbv [unlink bind system_call get modify throw].
  destruct (system_fault env (CUnlink file)); [reflexivity |].
  cbn [files log]. destruct (files st !! file); reflexivity.
Qed.

(** The [catch] block and the file: a timeout leaves the files alone;
    otherwise the file is deleted if it is there and deleting does not fail. *)
Lemma getContent_catch_files env l p file error st :
  (files st !! file = None ->
   files (snd (getContent_catch env l p file error st)) !! file = None) /\
  (is_TimeoutError error = false -> system_fault env (CUnlink file) = None ->
   files (snd (getContent_catch env l p file error st)) !! file = None).
Proof.
  unfold getContent_catch. destruct (is_TimeoutError error).
  { simpl. split; [auto | discriminate]. }
  unfold bind, try_catch. rewrite unlink_run.
  destruct (system_fault env (CUnlink file)) as [d|].
  { destruct error; simpl; split; auto; discriminate. }
  destruct (files st !! file) as [data|] eqn:Hfile.
  - destruct error; simpl; split; intros; apply lookup_delete_eq.
  - destruct error; simpl; split; auto.
Qed.

(** Non-timeout failures go through one attempt to delete the file. *)
Lemma getContent_catch_trace env l p file error st :
  is_TimeoutError error = false ->
  trace (snd (getContent_catch env l p file error st)) = trace st ++ [CUnlink file].
Proof.
  intros Herr. unfold getContent_catch. rewrite Herr.
  unfold bind, try_catch. rewrite unlink_run.
  destruct (system_fault env (CUnlink file)) as [d|]; [destruct error; reflexivity |].
  destruct (files st !! file) as [data|]; destruct error; reflexivity.
Qed.

(** The protected extraction and the file, from a store without it. *)
Lemma extract_files env l p file st :
  files st !! file = None ->
  system_fault env (CUnlink file) = None ->
  files (snd (try_catch (extract env l p file) (getContent_catch env l p file) st)) !! file
    = None.
Proof.
  intros Hfile Hunlink. unfold try_catch, extract, bind.
  rewrite locator_textContent_run.
  destruct (browser_fault env (CTextContent p)) as [x|].
  { apply (proj1 (getContent_catch_files _ _ _ _ _ _)); exact Hfile. }
  rewrite locator_screenshot_run.
  destruct (browser_fault env (CScreenshot p file)) as [x|].
  { apply (proj1 (getContent_catch_files _ _ _ _ _ _)); exact Hfile. }
  rewrite readFile_run.
  destruct (system_fault env (CReadFile file)) as [d|].
  { apply (proj2 (getContent_catch_files _ _ _ _ _ _)); [reflexivity | exact Hunlink]. }
  cbn [files set_files log]. rewrite lookup_insert_eq.
  rewrite unlink_run, Hunlink. cbn [files set_files log]. rewrite lookup_insert_eq.
  destruct (dom_text env (page st) p) as [[|c text]|]; simpl; apply lookup_delete_eq.
Qed.

(** Once the screenshot is written, a delete is attempted. *)
Lemma extract_trace env l p file st :
  browser_fault env (CScreenshot p file) = None ->
  exists calls,
    trace (snd (try_catch (extract env l p file) (getContent_catch env l p file) st))
      = trace st ++ calls /\
    (CScreenshot p file ∈ calls -> CUnlink file ∈ calls).
Proof.
  intros Hshot. unfold try_catch, extract, bind.
  rewrite locator_textContent_run.
  destruct (browser_fault env (CTextContent p)) as [x|].
  { destruct (ext_timeout x) eqn:Hx.
    - exists [CTextContent p]. split.
      + unfold getContent_catch. simpl. now rewrite Hx.
      + intros H. apply list_elem_of_singleton in H. discriminate.
    - exists [CTextContent p; CUnlink file]. split.
      + rewrite getContent_catch_trace by exact Hx. simpl. now rewrite <- app_assoc.
      + intros _. right. left. }
  rewrite locator_screenshot_run, Hshot, readFile_run.
  destruct (system_fault env (CReadFile file)) as [d|].
  { exists [CTextContent p; CScreenshot p file; CReadFile file; CUnlink file]. split.
    - rewrite getContent_catch_trace by reflexivity. simpl. now rewrite <- !app_assoc.
    - intros _. do 3 right. left. }
  cbn [files set_files log]. rewrite lookup_insert_eq, unlink_run.
  destruct (system_fault env (CUnlink file)) as [d|].
  { exists [CTextContent p; CScreenshot p file; CReadFile file; CUnlink file; CUnlink file].
    split.
    - rewrite getContent_catch_trace by reflexivity. simpl. now rewrite <- !app_assoc.
    - intros _. do 3 right. left. }
  cbn [files set_files log]. rewrite lookup_insert_eq.
  exists [CTextContent p; CScreenshot p file; CReadFile file; CUnlink file]. split.
  - destruct (dom_text env (page st) p) as [[|c text]|]; simpl; now rewrite <- !app_assoc.
  - intros _. do 3 right. left.
Qed.

Lemma settle_snd (x : Res Settled * St) :
  snd (match x with
       | (Ok (Resolve content), st2) => (Ok content, st2)
       | (Ok (Reject error), st2) => (Throw (ThrowScraping error), st2)
       | (Throw e, st2) => (Throw e, st2)
       end) = snd x.
Proof. destruct x as [[[c|e]|e] st2]; reflexivity. Qed.

(** The protected part of [getContent], after a prepare stage that throws
    and after one that returns. *)
Lemma protected_after_Throw env r l p file h st err st2 :
  prepare env r st = (Throw err, st2) ->
  try_catch (prepare env r >> extract env l p file) h st = h err st2.
Proof. intros E. apply try_catch_Throw, bind_Throw, E. Qed.

Lemma protected_after_Ok env r l p file h st st2 :
  prepare env r st = (Ok tt, st2) ->
  try_catch (prepare env r >> extract env l p file) h st
  = try_catch (extract env l p file) h st2.
Proof. intros E. unfold try_catch. now rewrite (bind_Ok _ _ _ _ _ E). Qed.

Lemma getContent_files env r st :
  files st !! screenshotPath (req_url r) = None ->
  system_fault env (CUnlink (screenshotPath (req_url r))) = None ->
  files (snd (getContent env (Some r) st)) !! screenshotPath (req_url r) = None.
Proof.
  intros Hfile Hunlink.
  destruct (req_selector r) as [l|] eqn:Hsel;
    [| unfold getContent; rewrite Hsel; exact Hfile].
  destruct (sel_path (heap st l)) as [p|] eqn:Hpath;
    [| unfold getContent, bind, deref; rewrite Hsel, Hpath; exact Hfile].
  rewrite (getContent_run env r l p st Hsel Hpath).
  destruct (check_selector_settles env l st) as (early & st1 & E1). rewrite E1.
  assert (H1 : files st1 = files st).
  { eapply (within_same_files validating); [| | eapply check_selector_within, E1];
      intros; exact id. }
  destruct early as [e|]; [simpl; now rewrite H1 |].
  rewrite settle_snd.
  destruct (prepare env r st1) as [[[]|err] st2] eqn:E2.
  - assert (H2 : files st2 = files st1).
    { eapply (within_same_files preparing); [| | eapply prepare_within, E2];
        intros; intros [[]|[]]. }
    rewrite (protected_after_Ok _ _ _ _ _ _ _ _ E2).
    apply extract_files; [now rewrite H2, H1 | exact Hunlink].
  - assert (H2 : files st2 = files st1).
    { eapply (within_same_files preparing); [| | eapply prepare_within, E2];
        intros; intros [[]|[]]. }
    rewrite (protected_after_Throw _ _ _ _ _ _ _ _ _ E2).
    apply (proj1 (getContent_catch_files _ _ _ _ _ _)). now rewrite H2, H1.
Qed.

Lemma emits_not_elem P st st' calls c :
  emits P st st' -> trace st' = trace st ++ calls -> ~ P c -> c ∉ calls.
Proof.
  intros (calls' & E & HP) E' Hc Hin. rewrite E in E'.
  apply app_inv_head in E'. subst calls'.
  rewrite Forall_forall in HP. apply Hc, HP, Hin.
Qed.

Lemma getContent_delete_attempted env r l p st :
  req_selector r = Some l ->
  sel_path (heap st l) = Some p ->
  browser_fault env (CScreenshot p (screenshotPath (req_url r))) = None ->
  exists calls,
    trace (snd (getContent env (Some r) st)) = trace st ++ calls /\
    (CScreenshot p (screenshotPath (req_url r)) ∈ calls ->
     CUnlink (screenshotPath (req_url r)) ∈ calls).
Proof.
  intros Hsel Hpath Hshot. set (file := screenshotPath (req_url r)) in *.
  rewrite (getContent_run env r l p st Hsel Hpath). fold file.
  destruct (check_selector_settles env l st) as (early & st1 & E1). rewrite E1.
  assert (H1 : emits (fun c => ~ extraction_call c) st st1).
  { eapply (within_emits validating); [| eapply check_selector_within, E1].
    intros [] Hc; simpl in *; tauto. }
  pose proof H1 as (c1 & T1 & _).
  destruct early as [e|].
  { exists c1. split; [exact T1 |]. intros Hin. exfalso.
    eapply (emits_not_elem _ _ _ _ _ H1 T1); [| exact Hin]. simpl. tauto. }
  rewrite settle_snd.
  assert (Hprep : forall res st2, prepare env r st1 = (res, st2) ->
            emits (fun c => ~ extraction_call c) st1 st2).
  { intros res st2 E2. eapply (within_emits preparing); [| eapply prepare_within, E2].
    intros [] [Hc|Hc]; simpl in *; tauto. }
  destruct (prepare env r st1) as [[[]|err] st2] eqn:E2.
  - rewrite (protected_after_Ok _ _ _ _ _ _ _ _ E2).
    pose proof (Hprep _ _ eq_refl) as H2. pose proof H2 as (c2 & T2 & _).
    destruct (extract_trace env l p file st2 Hshot) as (c3 & T3 & H3).
    exists (c1 ++ c2 ++ c3). split.
    + now rewrite T3, T2, T1, <- !app_assoc.
    + intros Hin. apply elem_of_app in Hin as [Hin | Hin].
      { exfalso. eapply (emits_not_elem _ _ _ _ _ H1 T1); [| exact Hin]. simpl. tauto. }
      apply elem_of_app in Hin as [Hin | Hin].
      { exfalso. eapply (emits_not_elem _ _ _ _ _ H2 T2); [| exact Hin]. simpl. tauto. }
      apply elem_of_app. right. apply elem_of_app. right. now apply H3.
  - rewrite (protected_after_Throw _ _ _ _ _ _ _ _ _ E2).
    pose proof (Hprep _ _ eq_refl) as H2. pose proof H2 as (c2 & T2 & _).
    destruct (is_TimeoutError err) eqn:Herr.
    + exists (c1 ++ c2). split.
      * unfold getContent_catch. rewrite Herr. simpl. now rewrite T2, T1, <- app_assoc.
      * intros Hin. exfalso. apply elem_of_app in Hin as [Hin | Hin].
        -- eapply (emits_not_elem _ _ _ _ _ H1 T1); [| exact Hin]. simpl. tauto.
        -- eapply (emits_not_elem _ _ _ _ _ H2 T2); [| exact Hin]. simpl. tauto.
    + exists (c1 ++ c2 ++ [CUnlink file]). split.
      * rewrite getContent_catch_trace by exact Herr. now rewrite T2, T1, <- !app_assoc.
      * intros _. apply elem_of_app. right. apply elem_of_app. right. left.
Qed.

(** The error the [catch] block rejects with does not depend on the store
    nor on what the delete does. *)
Lemma getContent_catch_result env env' l p file error st st' :
  to_string env' error = to_string env error ->
  fst (getContent_catch env' l p file error st')
  = fst (getContent_catch env l p file error st).
Proof.
  intros Hs. unfold getContent_catch. destruct (is_TimeoutError error); [reflexivity |].
  unfold bind, try_catch. rewrite !unlink_run.
  destruct (system_fault env (CUnlink file)), (system_fault env' (CUnlink file)),
    (files st !! file), (files st' !! file), error; simpl; now rewrite ?Hs.
Qed.

(** *** When the delete is attempted *)

(** What the pre-click stage can throw: the [ScrapingError] of a click, whose
    status is never [NO_CONTENT], or the error of a library. *)
Lemma clickElement_failure env element st err st' :
  clickElement env element st = (Throw err, st') -> not_NO_CONTENT err.
Proof.
  intros H. destruct element as [l|].
  2:{ cbv [clickElement throw] in H. inversion H; subst. simpl. discriminate. }
  destruct (sel_path (heap st l)) as [p|] eqn:Hpath.
  2:{ cbv [clickElement bind deref throw] in H. rewrite Hpath in H.
      inversion H; subst. simpl. discriminate. }
  destruct (unsupported (sel_language (heap st l))) eqn:Hlang.
  { cbv [clickElement bind deref throw] in H. rewrite Hpath, Hlang in H.
    inversion H; subst. simpl. discriminate. }
  destruct (system_fault env (CValidateText (p +:+ " {}"))) as [d|] eqn:Hcheck.
  { pose proof (validateSelector_throws env l st d Hlang) as Hv.
    rewrite Hpath in Hv. simpl in Hv. specialize (Hv Hcheck).
    cbv [clickElement bind deref try_catch ret throw] in H.
    rewrite Hpath, Hlang, Hv in H. inversion H; subst. simpl. discriminate. }
  pose proof (validateSelector_clean env l st Hlang) as Hv.
  rewrite Hpath in Hv. simpl in Hv. specialize (Hv Hcheck).
  cbv [clickElement bind deref try_catch ret] in H.
  rewrite Hpath, Hlang, Hv in H.
  cbn [resp_status new_DataSelectorValidityResponse resp_selector heap set_heap] in H.
  rewrite update_same in H.
  destruct (css_valid env (p +:+ " {}")); cbn in H.
  - cbv [page_click browser_call bind] in H.
    destruct (browser_fault env (CClick p)) as [x|]; cbn in H; [| discriminate].
    destruct (ext_timeout x); cbv [throw] in H; inversion H; subst; simpl; discriminate.
  - cbv [throw] in H. inversion H; subst. simpl. discriminate.
Qed.

Lemma click_callback_failure env element clickErr st c st' :
  click_callback env element clickErr st = (Ok c, st') ->
  (forall err, clickErr = Some err -> not_NO_CONTENT err) ->
  forall err, c = Some err -> not_NO_CONTENT err.
Proof.
  intros H Hacc. destruct element as [l|]; unfold click_callback in H.
  2:{ inversion H; subst. exact Hacc. }
  apply try_catch_inv in H as [(a & H & Ha) | (e & st1 & H & Hh)].
  - inversion Ha; subst a.
    apply bind_inv in H as [(e & _ & ?) | (b & st1 & _ & H)]; [discriminate |].
    apply bind_inv in H as [(e & _ & ?) | (u & st2 & _ & H)]; [discriminate |].
    inversion H; subst. exact Hacc.
  - inversion Hh; subst. intros err E. inversion E; subst err.
    apply bind_inv in H as [(e' & H & E') | (b & st2 & _ & H)].
    + inversion E'; subst. eapply clickElement_failure, H.
    + apply bind_inv in H as [(e' & H & E') | (u & st3 & _ & H)]; [| discriminate].
      inversion E'; subst. unfold page_waitForTimeout, browser_call in H.
      destruct (browser_fault env (CWaitForTimeout 500)); inversion H; subst. exact I.
Qed.

Lemma join_callbacks_failure env elements :
  forall clickErr st c st',
    join_callbacks env elements clickErr st = (Ok c, st') ->
    (forall err, clickErr = Some err -> not_NO_CONTENT err) ->
    forall err, c = Some err -> not_NO_CONTENT err.
Proof.
  induction elements as [|element rest IH]; intros clickErr st c st' H Hacc; simpl in H.
  - inversion H; subst. exact Hacc.
  - apply bind_inv in H as [(e & _ & ?) | (c1 & st1 & H1 & H)]; [discriminate |].
    eapply IH; [exact H |]. eapply click_callback_failure; eauto.
Qed.

Lemma click_all_failure env clickBefore st err st' :
  click_all env clickBefore st = (Throw err, st') -> not_NO_CONTENT err.
Proof.
  unfold click_all. intros H.
  apply bind_inv in H as [(e & H & _) | (st0 & st1 & H0 & H)]; [discriminate H |].
  inversion H0; subst.
  destruct (join_callbacks_settles env (completion_order env (heap st1) clickBefore) None st1)
    as (c & st2 & E & _).
  rewrite (bind_Ok _ _ _ _ _ E) in H.
  destruct c as [e|]; inversion H; subst.
  eapply (join_callbacks_failure _ _ _ _ _ _ E); [discriminate | reflexivity].
Qed.

Lemma loadPage_throws_external env url st e st' :
  loadPage env url st = (Throw e, st') -> exists x, e = ThrowExternal x.
Proof.
  cbv [loadPage bind try_catch browser_call newPage modify cache_get system_call get ret
       page_setContent page_goto page_content cache_set throw].
  destruct (browser_fault env CLaunch); [intros E; inversion E; subst; eauto |].
  destruct (browser_fault env CNewContext); [intros E; inversion E; subst; eauto |].
  destruct (browser_fault env CNewPage); [intros E; inversion E; subst; eauto |].
  destruct (system_fault env (CCacheGet _ _)); [intros E; inversion E; subst; eauto |].
  cbn [cache log set_page].
  destruct (cache st !! (hostname url, sha256_hex env (pathname url))) as [html|].
  - destruct (browser_fault env (CSetContent html)); intros E; inversion E; subst; eauto.
  - destruct (browser_fault env (CGoto _)); [intros E; inversion E; subst; eauto |].
    destruct (browser_fault env CContent); [intros E; inversion E; subst; eauto |].
    cbn [page log set_page markup].
    destruct (system_fault env (CCacheSet _ _ _)); intros E; inversion E; subst; eauto.
Qed.

Lemma prepare_failure env r st err st' :
  prepare env r st = (Throw err, st') -> not_NO_CONTENT err.
Proof.
  unfold prepare. intros H.
  apply bind_inv in H as [(e & H & E) | ([] & st1 & _ & H)].
  { inversion E; subst. destruct (loadPage_throws_external _ _ _ _ _ H) as [x ->]. exact I. }
  apply bind_inv in H as [(e & H & E) | ([] & st2 & _ & H)].
  { inversion E; subst. unfold page_waitForTimeout, browser_call in H.
    destruct (browser_fault env (CWaitForTimeout 500)); inversion H; subst. exact I. }
  destruct (req_clickBefore r); [eapply click_all_failure, H | discriminate].
Qed.

(** The two branches of the [catch] block: on a timeout the request is
    rejected at once; otherwise one delete is attempted and the rejection is
    another one. *)
Lemma getContent_catch_timeout env l p file err st :
  is_TimeoutError err = true ->
  getContent_catch env l p file err st = (Throw (ThrowScraping (timeout_rejection l p)), st).
Proof. intros Herr. unfold getContent_catch. now rewrite Herr. Qed.

Lemma getContent_catch_other env l p file err st :
  is_TimeoutError err = false ->
  not_NO_CONTENT err ->
  fst (getContent_catch env l p file err st) <> Throw (ThrowScraping (timeout_rejection l p)).
Proof.
  intros Herr Hq. unfold getContent_catch. rewrite Herr.
  unfold bind, try_catch. rewrite unlink_run.
  destruct (system_fault env (CUnlink file)), (files st !! file), err; simpl;
    intros E; inversion E; subst; simpl in Hq; try discriminate; now apply Hq.
Qed.

Ltac not_listed :=
  let H := fresh in
  intros H; repeat (apply elem_of_cons in H as [H | H]; [discriminate H |]); inversion H.

(** The protected extraction: a delete is attempted unless the request is
    rejected for a timeout. *)
Lemma extract_delete env l p file st :
  let run := try_catch (extract env l p file) (getContent_catch env l p file) st in
  exists calls,
    trace (snd run) = trace st ++ calls /\
    (CUnlink file ∈ calls <-> fst run <> Throw (ThrowScraping (timeout_rejection l p))) /\
    fst run <> Ok (Reject (timeout_rejection l p)).
Proof.
  assert (Hcatch : forall x pre st0,
            trace st0 = trace st ++ pre ->
            (CUnlink file ∉ pre \/ ext_timeout x = false) ->
            let run := getContent_catch env l p file (ThrowExternal x) st0 in
            exists calls,
              trace (snd run) = trace st ++ calls /\
              (CUnlink file ∈ calls <->
               fst run <> Throw (ThrowScraping (timeout_rejection l p))) /\
              fst run <> Ok (Reject (timeout_rejection l p))).
  { intros x pre st0 T Hpre run. subst run. destruct (ext_timeout x) eqn:Hx.
    - rewrite getContent_catch_timeout by exact Hx. exists pre. split; [exact T |].
      split; [| discriminate]. split.
      + intros Hin. destruct Hpre as [Hpre | Hpre]; [now apply Hpre in Hin | discriminate].
      + intros Hne. now contradiction Hne.
    - exists (pre ++ [CUnlink file]). split.
      + rewrite getContent_catch_trace by exact Hx. now rewrite T, app_assoc.
      + split.
        * split; [intros _; now apply getContent_catch_other |].
          intros _. apply elem_of_app. right. left.
        * destruct (getContent_catch_rejects env l p file (ThrowExternal x) st0)
            as (e & st1 & ->). discriminate. }
  unfold try_catch, extract, bind. rewrite locator_textContent_run.
  destruct (browser_fault env (CTextContent p)) as [x|].
  { apply (Hcatch x [CTextContent p]); [reflexivity | left; not_listed]. }
  rewrite locator_screenshot_run.
  destruct (browser_fault env (CScreenshot p file)) as [x|].
  { apply (Hcatch x [CTextContent p; CScreenshot p file]);
      [simpl; now rewrite <- app_assoc | left; not_listed]. }
  rewrite readFile_run.
  destruct (system_fault env (CReadFile file)) as [d|].
  { apply (Hcatch _ [CTextContent p; CScreenshot p file; CReadFile file]);
      [simpl; now rewrite <- !app_assoc | right; reflexivity]. }
  cbn [files set_files log]. rewrite lookup_insert_eq, unlink_run.
  destruct (system_fault env (CUnlink file)) as [d|].
  { apply (Hcatch _ [CTextContent p; CScreenshot p file; CReadFile file; CUnlink file]);
      [simpl; now rewrite <- !app_assoc | right; reflexivity]. }
  cbn [files set_files log]. rewrite lookup_insert_eq.
  exists [CTextContent p; CScreenshot p file; CReadFile file; CUnlink file].
  destruct (dom_text env (page st) p) as [[|c text]|]; simpl;
    (split; [now rewrite <- !app_assoc |]);
    (split; [split; [discriminate | intros _; do 3 right; left] | discriminate]).
Qed.

(** A delete is attempted exactly when the primary selector passed
    validation and the request is not rejected for a browser timeout. *)
Lemma getContent_delete_exactly env r l p st :
  req_selector r = Some l ->
  sel_path (heap st l) = Some p ->
  exists calls,
    trace (snd (getContent env (Some r) st)) = trace st ++ calls /\
    (CUnlink (screenshotPath (req_url r)) ∈ calls <->
     fst (check_selector env l st) = Ok None /\
     fst (getContent env (Some r) st) <> Throw (ThrowScraping (timeout_rejection l p))).
Proof.
  intros Hsel Hpath. set (file := screenshotPath (req_url r)) in *.
  rewrite (getContent_run env r l p st Hsel Hpath). fold file.
  destruct (check_selector_settles env l st) as (early & st1 & E1). rewrite E1.
  assert (H1 : emits (fun c => c <> CUnlink file) st st1).
  { eapply (within_emits validating); [| eapply check_selector_within, E1].
    intros [] Hc; simpl in Hc; try contradiction; discriminate. }
  pose proof H1 as (c1 & T1 & _).
  assert (N1 : CUnlink file ∉ c1).
  { intros Hin. now eapply (emits_not_elem _ _ _ _ _ H1 T1); [| exact Hin]; simpl; auto. }
  destruct early as [e|].
  { exists c1. split; [exact T1 |]. simpl. split; [intros Hin; now apply N1 in Hin |].
    intros [? _]. discriminate. }
  assert (Hprep : forall res st2, prepare env r st1 = (res, st2) ->
            emits (fun c => c <> CUnlink file) st1 st2).
  { intros res st2 E2. eapply (within_emits preparing); [| eapply prepare_within, E2].
    intros [] [Hc|Hc]; simpl in Hc; try contradiction; discriminate. }
  destruct (prepare env r st1) as [[[]|err] st2] eqn:E2.
  - rewrite (protected_after_Ok _ _ _ _ _ _ _ _ E2).
    pose proof (Hprep _ _ eq_refl) as H2. pose proof H2 as (c2 & T2 & _).
    assert (N2 : CUnlink file ∉ c2).
    { intros Hin. now eapply (emits_not_elem _ _ _ _ _ H2 T2); [| exact Hin]; simpl; auto. }
    destruct (extract_delete env l p file st2) as (c3 & T3 & H3 & R3).
    destruct (try_catch (extract env l p file) (getContent_catch env l p file) st2)
      as [[[content|error]|error] st3]; simpl in *;
      (exists (c1 ++ c2 ++ c3); split; [now rewrite T3, T2, T1, <- !app_assoc |]).
    + split; [intros _; split; [reflexivity | discriminate] |].
      intros _. apply elem_of_app. right. apply elem_of_app. right. apply (proj2 H3). discriminate.
    + split.
      * intros _. split; [reflexivity |]. intros E. apply R3. now inversion E.
      * intros _. apply elem_of_app. right. apply elem_of_app. right. apply (proj2 H3). discriminate.
    + split.
      * intros Hin. split; [reflexivity |].
        apply elem_of_app in Hin as [Hin | Hin]; [now apply N1 in Hin |].
        apply elem_of_app in Hin as [Hin | Hin]; [now apply N2 in Hin |].
        intros E. apply (proj1 H3 Hin). now inversion E.
      * intros [_ Hne]. apply elem_of_app. right. apply elem_of_app. right. apply (proj2 H3).
        intros E. apply Hne. now inversion E.
  - rewrite (protected_after_Throw _ _ _ _ _ _ _ _ _ E2).
    pose proof (Hprep _ _ eq_refl) as H2. pose proof H2 as (c2 & T2 & _).
    assert (N2 : CUnlink file ∉ c2).
    { intros Hin. now eapply (emits_not_elem _ _ _ _ _ H2 T2); [| exact Hin]; simpl; auto. }
    pose proof (prepare_failure _ _ _ _ _ E2) as Hq.
    destruct (is_TimeoutError err) eqn:Herr.
    + rewrite getContent_catch_timeout by exact Herr. simpl.
      exists (c1 ++ c2). split; [now rewrite T2, T1, <- app_assoc |].
      split.
      * intros Hin. apply elem_of_app in Hin as [Hin | Hin];
          [now apply N1 in Hin | now apply N2 in Hin].
      * intros [_ Hne]. now contradiction Hne.
    + pose proof (getContent_catch_other env l p file err st2 Herr Hq) as Hne.
      pose proof (getContent_catch_trace env l p file err st2 Herr) as T3.
      destruct (getContent_catch_rejects env l p file err st2) as (e' & st3 & E3).
      rewrite E3 in *. simpl in *.
      exists (c1 ++ c2 ++ [CUnlink file]). split; [now rewrite T3, T2, T1, <- !app_assoc |].
      split; [intros _; split; [reflexivity | intros E; apply Hne; now inversion E] |].
      intros _. apply elem_of_app. right. apply elem_of_app. right. left.
Qed.

(** C1, as the code has it.  If no file stands at the screenshot path when
    [getContent] starts and deleting does not fail, none stands there when it
    returns, whether it resolves, rejects with [NO_CONTENT] or rejects
    otherwise.  On every run on which the screenshot was written a delete is
    attempted.  In the [catch] block the error rejected with is the same
    whatever the store holds and whatever the delete does: its failure is
    swallowed.  The delete is not attempted on every exit: it is attempted
    exactly when the primary selector passed validation and the request is
    not rejected with the error of a browser timeout; a request stopped by
    the guard on an undefined selector or path calls nothing at all. *)
Theorem screenshot_cleanup env r st :
  let file := screenshotPath (req_url r) in
  let st' := snd (getContent env (Some r) st) in
  (files st !! file = None -> system_fault env (CUnlink file) = None ->
   files st' !! file = None)
  /\
  (forall l p,
     req_selector r = Some l -> sel_path (heap st l) = Some p ->
     browser_fault env (CScreenshot p file) = None ->
     exists calls,
       trace st' = trace st ++ calls /\
       (CScreenshot p file ∈ calls -> CUnlink file ∈ calls))
  /\
  (forall env' l p error st1 st2,
     to_string env' error = to_string env error ->
     fst (getContent_catch env' l p file error st2)
     = fst (getContent_catch env l p file error st1))
  /\
  (forall l p,
     req_selector r = Some l -> sel_path (heap st l) = Some p ->
     exists calls,
       trace st' = trace st ++ calls /\
       (CUnlink file ∈ calls <->
        fst (check_selector env l st) = Ok None /\
        fst (getContent env (Some r) st)
          <> Throw (ThrowScraping (timeout_rejection l p))))
  /\
  (match req_selector r with
   | Some l => sel_path (heap st l) = None
   | None => True
   end -> st' = st).
Proof.
  intros file st'. subst file st'. split; [| split; [| split; [| split]]].
  - apply getContent_files.
  - intros l p. apply getContent_delete_attempted.
  - intros env' l p error st1 st2. apply getContent_catch_result.
  - intros l p. apply getContent_delete_exactly.
  - unfold getContent, bind, deref. destruct (req_selector r) as [l|]; [| reflexivity].
    now intros ->.
Qed.

Lemma screenshot_cleanup_witness :
  files (snd (getContent calm (Some (request 0 None (Some false))) fresh))
    !! screenshotPath sample_url = None /\
  files (snd (getContent (world disk_full no_fault) (Some (request 0 None None)) fresh))
    !! screenshotPath sample_url = None /\
  (CUnlink (screenshotPath sample_url)
     ∉ trace (snd (getContent (world node_never_appears no_fault)
                     (Some (request 0 None None)) fresh))) /\
  CUnlink (screenshotPath sample_url)
    ∈ trace (snd (getContent (world disk_full no_fault) (Some (request 0 None None)) fresh)).
Proof.
  split; [| split; [| split]].
  - apply (proj1 (screenshot_cleanup calm (request 0 None (Some false)) fresh));
      reflexivity.
  - apply (proj1 (screenshot_cleanup (world disk_full no_fault) (request 0 None None) fresh));
      reflexivity.
  - destruct (proj1 (proj2 (proj2 (proj2
                (screenshot_cleanup (world node_never_appears no_fault)
                   (request 0 None None) fresh))))
                0 ".a-good-selector" eq_refl eq_refl) as (calls & T & Hdelete).
    rewrite T. intros Hin. apply Hdelete in Hin as [_ Hne]. now apply Hne.
  - destruct (proj1 (proj2 (proj2 (proj2
                (screenshot_cleanup (world disk_full no_fault)
                   (request 0 None None) fresh))))
                0 ".a-good-selector" eq_refl eq_refl) as (calls & T & Hdelete).
    rewrite T. apply Hdelete. split; [reflexivity | discriminate].
Defined.

(** C1 as stated does not hold.  The delete is not attempted on every
    exit: when waiting for the node times out the request is rejected with
    [NO_CONTENT] and [unlink] has not been called.  And a delete that fails is
    not the same as a file that is absent: where files cannot be deleted, the
    screenshot written by the request is still there when it returns. *)
Lemma timeout_exit_attempts_no_delete :
  let r := request 0 None None in
  let timed_out := getContent (world node_never_appears no_fault) (Some r) fresh in
  let denied := getContent (world no_fault delete_denied) (Some r) fresh in
  status_of (fst timed_out) = Some NO_CONTENT /\
  (CUnlink (screenshotPath (req_url r)) ∉ trace (snd timed_out)) /\
  files fresh !! screenshotPath (req_url r) = None /\
  files (snd denied) !! screenshotPath (req_url r)
    = Some "R0lGODlhAQABAAAAACwAAAAAAQABAAA=".
Proof.
  vm_compute. split; [reflexivity |]. split; [| split; reflexivity].
  intros H. repeat (apply elem_of_cons in H as [H | H]; [discriminate H |]).
  inversion H.
Qed.

(** On the main path the delete is not protected: when it fails, a request
    that would have succeeded is rejected with [ERROR]. *)
Remark failed_delete_after_read_back :
  let r := request 0 None None in
  status_of (fst (getContent calm (Some r) fresh)) = Some SUCCESS /\
  status_of (fst (getContent (world no_fault delete_denied) (Some r) fresh)) = Some ERROR.
Proof. vm_compute. split; reflexivity. Qed.

(** ** The page cache *)

#[global] Instance cache_reused_order : StoreOrder cache_reused.
Proof.
  split.
  - intros st. split; [apply store_refl | reflexivity].
  - intros st1 st2 st3 [E12 C12] [E23 C23]. split.
    + eapply store_trans; eassumption.
    + congruence.
Qed.

Lemma within_cache_reused (F : Effect -> Prop) st st' :
  (forall c, F (Called c) -> ~ refetch_call c) ->
  (forall ns key value, ~ F (Cached ns key value)) ->
  within F st st' -> cache_reused st st'.
Proof.
  intros HF HC Hw. split.
  - eapply within_emits; eauto.
  - eapply within_same_cache; eauto.
Qed.

(** Following a store built by explicit updates. *)
Ltac reused :=
  lazymatch goal with
  | |- cache_reused ?st ?st => apply store_refl
  | |- cache_reused ?st (log ?c ?st') =>
      apply (store_trans st st' _); [reused | split; [apply emits_log; exact id | reflexivity]]
  | |- cache_reused ?st (set_page ?p ?st') =>
      apply (store_trans st st' _);
      [reused | split; [apply emits_same_trace; reflexivity | reflexivity]]
  end.

(** A cache hit: no navigation, the cache untouched, the cached markup in the page. *)
Lemma loadPage_hit env url html st :
  cache st !! cache_key env url = Some html ->
  cache_reused st (snd (loadPage env url st)) /\
  (fst (loadPage env url st) = Ok tt ->
   markup (page (snd (loadPage env url st))) = html).
Proof.
  unfold cache_key. intros Hhit.
  cbv [loadPage bind try_catch browser_call newPage modify cache_get system_call get ret
       page_setContent throw].
  destruct (browser_fault env CLaunch); [split; [cbn; reused | discriminate] |].
  destruct (browser_fault env CNewContext); [split; [cbn; reused | discriminate] |].
  destruct (browser_fault env CNewPage); [split; [cbn; reused | discriminate] |].
  destruct (system_fault env (CCacheGet _ _)); [split; [cbn; reused | discriminate] |].
  cbn [cache log set_page]. rewrite Hhit.
  destruct (browser_fault env (CSetContent html)); split;
    solve [cbn; reused | discriminate | reflexivity].
Qed.

(** After a successful acquisition the cache holds the markup of the page,
    under the key of the address. *)
Lemma loadPage_caches env url st st' :
  loadPage env url st = (Ok tt, st') ->
  cache st' !! cache_key env url = Some (markup (page st')).
Proof.
  unfold cache_key.
  cbv [loadPage bind try_catch browser_call newPage modify cache_get system_call get ret
       page_setContent page_goto page_content cache_set throw].
  destruct (browser_fault env CLaunch); [discriminate |].
  destruct (browser_fault env CNewContext); [discriminate |].
  destruct (browser_fault env CNewPage); [discriminate |].
  destruct (system_fault env (CCacheGet _ _)); [discriminate |].
  cbn [cache log set_page].
  destruct (cache st !! (hostname url, sha256_hex env (pathname url))) as [html|] eqn:Hget.
  - destruct (browser_fault env (CSetContent html)); [discriminate |].
    intros E. inversion E; subst. exact Hget.
  - destruct (browser_fault env (CGoto _)); [discriminate |].
    destruct (browser_fault env CContent); [discriminate |].
    cbn [page log set_page markup].
    destruct (system_fault env (CCacheSet _ _ _)); [discriminate |].
    intros E. inversion E; subst. cbn. apply lookup_insert_eq.
Qed.

Lemma prepare_hit env r html st :
  cache st !! cache_key env (req_url r) = Some html ->
  cache_reused st (snd (prepare env r st)).
Proof.
  intros Hhit. destruct (loadPage_hit env (req_url r) html st Hhit) as [Hload _].
  unfold prepare.
  destruct (loadPage env (req_url r) st) as [[[]|e] st1] eqn:E1; simpl in Hload;
    [| now rewrite (bind_Throw _ _ _ _ _ E1)].
  rewrite (bind_Ok _ _ _ _ _ E1).
  eapply store_trans; [exact Hload |].
  assert (preserves (within clicking)
            (page_waitForTimeout env 500 >>
             match req_clickBefore r with
             | Some clickBefore => click_all env clickBefore
             | None => ret tt
             end)) as Hrest by footprint.
  eapply (within_cache_reused clicking).
  - intros [] Hc; simpl in *; tauto.
  - intros ns key value Hc. exact Hc.
  - eapply Hrest. apply surjective_pairing.
Qed.

Lemma getContent_hit env r html st :
  cache st !! cache_key env (req_url r) = Some html ->
  cache_reused st (snd (getContent env (Some r) st)).
Proof.
  intros Hhit.
  destruct (req_selector r) as [l|] eqn:Hsel;
    [| unfold getContent; rewrite Hsel; apply store_refl].
  destruct (sel_path (heap st l)) as [p|] eqn:Hpath;
    [| unfold getContent, bind, deref; rewrite Hsel, Hpath; apply store_refl].
  rewrite (getContent_run env r l p st Hsel Hpath).
  destruct (check_selector_settles env l st) as (early & st1 & E1). rewrite E1.
  assert (H1 : cache_reused st st1).
  { eapply (within_cache_reused validating); [| | eapply check_selector_within, E1].
    - intros [] Hc; simpl in *; tauto.
    - intros ns key value Hc. exact Hc. }
  destruct early as [e|]; [exact H1 |].
  rewrite settle_snd. eapply store_trans; [exact H1 |].
  assert (Hhit1 : cache st1 !! cache_key env (req_url r) = Some html).
  { destruct H1 as [_ ->]. exact Hhit. }
  pose proof (prepare_hit env r html st1 Hhit1) as H2.
  assert (Hcatch : forall error, preserves cache_reused
            (getContent_catch env l p (screenshotPath (req_url r)) error)).
  { intros error st2 res st3 E. eapply (within_cache_reused cleaning);
      [| | eapply getContent_catch_within, E].
    - intros [] Hc; simpl in *; tauto.
    - intros ns key value Hc. exact Hc. }
  assert (Hextract : preserves cache_reused
            (extract env l p (screenshotPath (req_url r)))).
  { intros st2 res st3 E. eapply (within_cache_reused extracting);
      [| | eapply extract_within, E].
    - intros [] Hc; simpl in *; tauto.
    - intros ns key value Hc. exact Hc. }
  destruct (prepare env r st1) as [[[]|err] st2] eqn:E2; simpl in H2.
  - rewrite (protected_after_Ok _ _ _ _ _ _ _ _ E2).
    eapply store_trans; [exact H2 |].
    eapply (preserves_try_catch cache_reused); [exact Hextract | exact Hcatch |].
    apply surjective_pairing.
  - rewrite (protected_after_Throw _ _ _ _ _ _ _ _ _ E2).
    eapply store_trans; [exact H2 |]. eapply Hcatch. apply surjective_pairing.
Qed.

(** *** The cached markup is what the page holds *)

#[global] Instance same_content_order : StoreOrder same_content.
Proof.
  split.
  - intros st. split; [reflexivity |]. exists []. now rewrite app_nil_r.
  - intros st1 st2 st3 [M12 (c1 & T1)] [M23 (c2 & T2)]. split; [congruence |].
    exists (c1 ++ c2). now rewrite T2, T1, app_assoc.
Qed.

(** An update of the store that leaves the markup of the page alone. *)
Ltac kept :=
  split;
  [ reflexivity
  | first [ eexists; reflexivity | exists []; cbn; now rewrite app_nil_r ] ].

Lemma validateSelector_same_content env x : preserves same_content (validateSelector env x).
Proof. unfold validateSelector. frame; kept. Qed.
#[global] Hint Resolve validateSelector_same_content : frame.

Lemma clickElement_same_content env element :
  preserves same_content (clickElement env element).
Proof. unfold clickElement. frame; kept. Qed.
#[global] Hint Resolve clickElement_same_content : frame.

Lemma join_callbacks_same_content env elements clickErr :
  preserves same_content (join_callbacks env elements clickErr).
Proof.
  revert clickErr. induction elements as [|element rest IH]; intros clickErr; simpl;
    [frame |].
  unfold click_callback. frame; kept.
Qed.
#[global] Hint Resolve join_callbacks_same_content : frame.

Lemma extract_same_content env l p file : preserves same_content (extract env l p file).
Proof. unfold extract. frame; kept. Qed.

Lemma getContent_catch_same_content env l p file error :
  preserves same_content (getContent_catch env l p file error).
Proof. unfold getContent_catch. frame; kept. Qed.

(** A cache hit on which the libraries answer: [loadPage] resolves, having
    set the cached markup into a new page and called nothing after that. *)
Lemma loadPage_hit_resolves env url html st :
  cache st !! cache_key env url = Some html ->
  hit_goes_through env url html ->
  exists st',
    loadPage env url st = (Ok tt, st') /\
    trace st' = trace st ++
      [CLaunch; CNewContext; CNewPage; CSetDefaultTimeout 1000;
       CCacheGet (hostname url) (sha256_hex env (pathname url)); CSetContent html] /\
    markup (page st') = html.
Proof.
  unfold cache_key. intros Hhit (H1 & H2 & H3 & H4 & H5).
  cbv [loadPage bind try_catch browser_call newPage modify cache_get system_call get ret
       page_setContent throw].
  rewrite H1, H2, H3, H4. cbn [cache log set_page]. rewrite Hhit, H5.
  eexists. split; [reflexivity |]. split; [| reflexivity].
  cbn. now rewrite <- !app_assoc.
Qed.

(** A request whose primary selector passes validation, on a cache hit on
    which the libraries answer: the cached markup is set into the page, and
    it is the markup the page holds to the end of the run. *)
Lemma getContent_takes_cached env r l p html st :
  req_selector r = Some l ->
  sel_path (heap st l) = Some p ->
  fst (check_selector env l st) = Ok None ->
  cache st !! cache_key env (req_url r) = Some html ->
  hit_goes_through env (req_url r) html ->
  CSetContent html ∈ trace (snd (getContent env (Some r) st)) /\
  markup (page (snd (getContent env (Some r) st))) = html.
Proof.
  intros Hsel Hpath Hcheck Hhit Hlibs.
  rewrite (getContent_run env r l p st Hsel Hpath).
  destruct (check_selector env l st) as [early st1] eqn:E1. simpl in Hcheck. subst early.
  assert (Hhit1 : cache st1 !! cache_key env (req_url r) = Some html).
  { assert (Hc : same_cache st st1).
    { eapply (within_same_cache validating); [| eapply check_selector_within, E1].
      intros ns key value Hc. exact Hc. }
    now rewrite Hc. }
  destruct (loadPage_hit_resolves env (req_url r) html st1 Hhit1 Hlibs)
    as (st2 & Hload & T2 & M2).
  rewrite settle_snd.
  enough (Hrun : same_content st2
            (snd (try_catch (prepare env r >> extract env l p (screenshotPath (req_url r)))
                    (getContent_catch env l p (screenshotPath (req_url r))) st1))).
  { destruct Hrun as [M (calls & T)]. split; [| now rewrite M].
    rewrite T, T2. apply elem_of_app. left. apply elem_of_app. right.
    do 5 right. left. }
  assert (Hrest : preserves same_content
            (page_waitForTimeout env 500 >>
             match req_clickBefore r with
             | Some clickBefore => click_all env clickBefore
             | None => ret tt
             end)).
  { unfold click_all. frame; kept. }
  destruct (prepare env r st1) as [[[]|err] st3] eqn:E3.
  - rewrite (protected_after_Ok _ _ _ _ _ _ _ _ E3).
    unfold prepare in E3. rewrite (bind_Ok _ _ _ _ _ Hload) in E3.
    eapply store_trans; [eapply Hrest, E3 |].
    eapply (preserves_try_catch same_content);
      [apply extract_same_content | apply getContent_catch_same_content |].
    apply surjective_pairing.
  - rewrite (protected_after_Throw _ _ _ _ _ _ _ _ _ E3).
    unfold prepare in E3. rewrite (bind_Ok _ _ _ _ _ Hload) in E3.
    eapply store_trans; [eapply Hrest, E3 |].
    eapply getContent_catch_same_content. apply surjective_pairing.
Qed.

(** C3.  Once an address has been acquired, acquiring an address with the
    same host and path again, whatever its query and fragment, and as long as
    the cache was not written in between, performs no live navigation: the
    cache holds the markup of the first page under the hex SHA-256 of the
    path in the namespace of the host, [loadPage] issues no [page.goto], and
    the page it resolves with has the markup the first acquisition cached.
    When the libraries answer on the way, the second acquisition does
    resolve, and what it has done is to start the browser, read the cache
    under that key and set the cached markup into the page.  [loadPage]
    takes no flag: this holds for requests with [useCache = true], whose
    whole run issues no [page.goto] either and, once the primary selector has
    passed validation, works on the cached markup. *)
Theorem second_acquisition_uses_cache env1 env2 u1 u2 st st1 st1' :
  hostname u2 = hostname u1 ->
  pathname u2 = pathname u1 ->
  sha256_hex env2 (pathname u1) = sha256_hex env1 (pathname u1) ->
  loadPage env1 u1 st = (Ok tt, st1) ->
  cache st1' = cache st1 ->
  cache st1 !! (hostname u1, sha256_hex env1 (pathname u1)) = Some (markup (page st1)) /\
  cache_reused st1' (snd (loadPage env2 u2 st1')) /\
  (fst (loadPage env2 u2 st1') = Ok tt ->
   markup (page (snd (loadPage env2 u2 st1'))) = markup (page st1)) /\
  (hit_goes_through env2 u2 (markup (page st1)) ->
   fst (loadPage env2 u2 st1') = Ok tt /\
   trace (snd (loadPage env2 u2 st1')) = trace st1' ++
     [CLaunch; CNewContext; CNewPage; CSetDefaultTimeout 1000;
      CCacheGet (hostname u1) (sha256_hex env1 (pathname u1));
      CSetContent (markup (page st1))]) /\
  (forall r, req_url r = u2 -> req_useCache r = Some true ->
   cache_reused st1' (snd (getContent env2 (Some r) st1')) /\
   (forall l p,
      req_selector r = Some l -> sel_path (heap st1' l) = Some p ->
      fst (check_selector env2 l st1') = Ok None ->
      hit_goes_through env2 u2 (markup (page st1)) ->
      CSetContent (markup (page st1)) ∈ trace (snd (getContent env2 (Some r) st1')) /\
      markup (page (snd (getContent env2 (Some r) st1'))) = markup (page st1))).
Proof.
  intros Hhost Hpath Hsha Hfirst Hcache.
  pose proof (loadPage_caches env1 u1 st st1 Hfirst) as Hentry.
  assert (Hhit : cache st1' !! cache_key env2 u2 = Some (markup (page st1))).
  { unfold cache_key. rewrite Hcache, Hhost, Hpath, Hsha. exact Hentry. }
  split; [exact Hentry |].
  destruct (loadPage_hit env2 u2 _ st1' Hhit) as [Hreused Hmarkup].
  split; [exact Hreused |]. split; [exact Hmarkup |]. split.
  - intros Hlibs.
    destruct (loadPage_hit_resolves env2 u2 _ st1' Hhit Hlibs) as (st2 & -> & T & _).
    split; [reflexivity |]. simpl. now rewrite T, Hhost, Hpath, Hsha.
  - intros r Hurl _. split.
    + apply (getContent_hit env2 r (markup (page st1))). now rewrite Hurl.
    + intros l p Hsel Hp Hcheck Hlibs. subst u2.
      now apply (getContent_takes_cached env2 r l p).
Qed.

Lemma second_acquisition_uses_cache_witness :
  let st1 := snd (loadPage calm sample_url fresh) in
  let second := loadPage calm sample_url_with_query st1 in
  cache st1 !! ("example.test", "sha256:/page") = Some (markup (page st1)) /\
  cache_reused st1 (snd second) /\
  fst second = Ok tt /\
  markup (page (snd second)) = markup (page st1) /\
  CSetContent (markup (page st1)) ∈ trace (snd second).
Proof.
  intros st1 second.
  destruct (second_acquisition_uses_cache calm calm sample_url sample_url_with_query
              fresh st1 st1 eq_refl eq_refl eq_refl eq_refl eq_refl)
    as (Hentry & Hreused & Hmarkup & Hresolves & _).
  destruct Hresolves as [Hok Htrace].
  { repeat split. }
  split; [exact Hentry |]. split; [exact Hreused |]. split; [exact Hok |].
  split; [apply Hmarkup, Hok |].
  subst second. rewrite Htrace. apply elem_of_app. right. do 5 right. left.
Defined.

Lemma with_useCache_ignored env flag r :
  getContent env (Some (with_useCache flag r)) = getContent env (Some r).
Proof. reflexivity. Qed.




(** ** The end-to-end scenarios of the specification *)

(** Scenario A: the element holds "yeah baby"; the request succeeds and the
    selector object now carries the status valid. *)
Example scenario_A :
  let run := getContent calm (Some (request 0 None (Some false))) fresh in
  fst run = Ok {| sc_content := "yeah baby"; sc_selector := 0;
                  sc_screenshot := "data:image/gif;base64,R0lGODlhAQABAAAAACwAAAAAAQABAAA=" |} /\
  sel_status (heap (snd run) 0) = Some VALID.
Proof. vm_compute. split; reflexivity. Qed.

(** Scenario B: the element has no text. *)
Example scenario_B :
  status_of (fst (getContent calm (Some (request 4 None (Some false))) fresh))
    = Some NO_CONTENT.
Proof. vm_compute. reflexivity. Qed.

(** Scenario C: the path is not valid CSS; only the checker has been called. *)
Example scenario_C :
  let run := getContent calm (Some (request 1 None (Some false))) fresh in
  status_of (fst run) = Some INVALID_SELECTOR /\
  trace (snd run) = [CValidateText ".a-bad-selector {}"].
Proof. vm_compute. split; reflexivity. Qed.

(** Scenario D: the element to click first never appears. *)
Example scenario_D :
  status_of (fst (getContent (world popup_never_appears no_fault)
                    (Some (request 0 (Some [Some 2]) (Some false))) fresh))
    = Some ELEMENT_NOT_FOUND.
Proof. vm_compute. reflexivity. Qed.

(** * Further properties of the service *)

(** ** The outcome of a request *)

Lemma getContent_Ok_inv env r st content st' :
  getContent env (Some r) st = (Ok content, st') ->
  exists l p st1 st2,
    req_selector r = Some l /\
    sel_path (heap st l) = Some p /\
    check_selector env l st = (Ok None, st1) /\
    prepare env r st1 = (Ok tt, st2) /\
    extract env l p (screenshotPath (req_url r)) st2 = (Ok (Resolve content), st').
Proof.
  intros H.
  destruct (req_selector r) as [l|] eqn:Hsel;
    [| unfold getContent in H; rewrite Hsel in H; discriminate].
  destruct (sel_path (heap st l)) as [p|] eqn:Hpath;
    [| unfold getContent, bind, deref in H; rewrite Hsel, Hpath in H; discriminate].
  rewrite (getContent_run env r l p st Hsel Hpath) in H.
  destruct (check_selector env l st) as [[[e|]|e] st1] eqn:E1; try discriminate.
  destruct (prepare env r st1) as [[[]|err] st2] eqn:E2.
  - rewrite (protected_after_Ok _ _ _ _ _ _ _ _ E2) in H. unfold try_catch in H.
    destruct (extract env l p (screenshotPath (req_url r)) st2) as [[[c|e]|e] st3] eqn:E3.
    + inversion H; subst. exists l, p, st1, st2. auto.
    + discriminate.
    + destruct (getContent_catch_rejects env l p (screenshotPath (req_url r)) e st3)
        as (e' & st4 & E4).
      rewrite E4 in H. discriminate.
  - rewrite (protected_after_Throw _ _ _ _ _ _ _ _ _ E2) in H.
    destruct (getContent_catch_rejects env l p (screenshotPath (req_url r)) err st2)
      as (e' & st4 & E4).
    rewrite E4 in H. discriminate.
Qed.

(** X1.  Whatever the request (its address being well formed), the store and
    the libraries, [getContent] either resolves or rejects with a
    [ScrapingError]: no other thrown value escapes it, so every outcome
    carries a status. *)
Theorem getContent_outcome_has_status env req st :
  exists status, status_of (fst (getContent env req st)) = Some status.
Proof.
  destruct req as [r|]; [| eexists; reflexivity].
  destruct (req_selector r) as [l|] eqn:Hsel;
    [| unfold getContent; rewrite Hsel; eexists; reflexivity].
  destruct (sel_path (heap st l)) as [p|] eqn:Hpath;
    [| unfold getContent, bind, deref; rewrite Hsel, Hpath; eexists; reflexivity].
  rewrite (getContent_run env r l p st Hsel Hpath).
  destruct (check_selector_settles env l st) as (early & st1 & E1). rewrite E1.
  destruct early as [e|]; [eexists; reflexivity |].
  destruct (prepare env r st1) as [[[]|err] st2] eqn:E2.
  - rewrite (protected_after_Ok _ _ _ _ _ _ _ _ E2). unfold try_catch.
    destruct (extract env l p (screenshotPath (req_url r)) st2) as [[[c|e]|e] st3] eqn:E3;
      try (eexists; reflexivity).
    destruct (getContent_catch_rejects env l p (screenshotPath (req_url r)) e st3)
      as (e' & st4 & E4).
    rewrite E4. eexists; reflexivity.
  - rewrite (protected_after_Throw _ _ _ _ _ _ _ _ _ E2).
    destruct (getContent_catch_rejects env l p (screenshotPath (req_url r)) err st2)
      as (e' & st4 & E4).
    rewrite E4. eexists; reflexivity.
Qed.

#[global] Instance keeps_valid_order env l : StoreOrder (keeps_valid env l).
Proof. split; unfold keeps_valid; auto. Qed.

Lemma keeps_valid_heap env l st st' : heap st' = heap st -> keeps_valid env l st st'.
Proof. unfold keeps_valid, validated. intros ->. auto. Qed.

Lemma validateSelector_unsupported env x st :
  unsupported (sel_language (heap st x)) = true ->
  snd (validateSelector env x st) = st.
Proof. intros H. cbv [validateSelector bind deref throw]. now rewrite H. Qed.

(** Validating any selector object again, the same or another, does not
    undo the valid status of [l]. *)
Lemma validateSelector_keeps_valid env l x :
  preserves (keeps_valid env l) (validateSelector env x).
Proof.
  intros st r st' H Hv. apply (f_equal snd) in H. simpl in H. subst st'.
  destruct (unsupported (sel_language (heap st x))) eqn:Hlang.
  { now rewrite validateSelector_unsupported. }
  destruct (system_fault env (CValidateText (show (sel_path (heap st x)) +:+ " {}")))
    as [d|] eqn:Hcheck.
  { rewrite (validateSelector_throws env x st d Hlang Hcheck). exact Hv. }
  rewrite (validateSelector_clean env x st Hlang Hcheck).
  destruct Hv as [Hstatus Hvalid]. unfold validated. cbn [snd heap set_heap]. unfold update.
  destruct (Nat.eqb_spec l x) as [->|]; [| split; assumption].
  cbn [with_status sel_path sel_status]. rewrite Hvalid. split; reflexivity.
Qed.
#[global] Hint Resolve validateSelector_keeps_valid : frame.

Ltac same_heap := apply keeps_valid_heap; reflexivity.

Lemma clickElement_keeps_valid env l element :
  preserves (keeps_valid env l) (clickElement env element).
Proof. unfold clickElement. frame; same_heap. Qed.
#[global] Hint Resolve clickElement_keeps_valid : frame.

Lemma join_callbacks_keeps_valid env l elements clickErr :
  preserves (keeps_valid env l) (join_callbacks env elements clickErr).
Proof.
  revert clickErr. induction elements as [|element rest IH]; intros clickErr; simpl;
    [frame |].
  unfold click_callback. frame; same_heap.
Qed.
#[global] Hint Resolve join_callbacks_keeps_valid : frame.

Lemma prepare_keeps_valid env l r : preserves (keeps_valid env l) (prepare env r).
Proof. unfold prepare, loadPage, click_all. frame; same_heap. Qed.

(** When the validation block lets the request through, the primary
    selector has been marked valid. *)
Lemma check_selector_passed env l st st1 :
  check_selector env l st = (Ok None, st1) -> validated env l st1.
Proof.
  unfold check_selector, try_catch, bind.
  destruct (unsupported (sel_language (heap st l))) eqn:Hlang.
  { cbv [validateSelector bind deref throw]. rewrite Hlang. discriminate. }
  destruct (system_fault env (CValidateText (show (sel_path (heap st l)) +:+ " {}")))
    as [d|] eqn:Hcheck.
  { rewrite (validateSelector_throws env l st d Hlang Hcheck). discriminate. }
  rewrite (validateSelector_clean env l st Hlang Hcheck).
  cbn [resp_status new_DataSelectorValidityResponse resp_selector deref heap set_heap].
  rewrite update_same.
  destruct (css_valid env (show (sel_path (heap st l)) +:+ " {}")) eqn:Hvalid;
    cbn [with_status sel_status]; [| discriminate].
  intros E. inversion E; subst. unfold validated. cbn [heap set_heap].
  rewrite update_same. cbn [with_status sel_status sel_path]. auto.
Qed.

(** What a successful extraction has done. *)
Lemma extract_Resolve env l p file st content st' :
  extract env l p file st = (Ok (Resolve content), st') ->
  sc_selector content = l /\
  dom_text env (page st) p = Some (sc_content content) /\
  sc_content content <> "" /\
  sc_screenshot content = "data:image/gif;base64," +:+ dom_image env (page st) p /\
  heap st' = heap st /\
  files st' !! file = None /\
  trace st' = trace st ++ [CTextContent p; CScreenshot p file; CReadFile file; CUnlink file].
Proof.
  unfold extract, bind. rewrite locator_textContent_run.
  destruct (browser_fault env (CTextContent p)); [discriminate |].
  rewrite locator_screenshot_run.
  destruct (browser_fault env (CScreenshot p file)); [discriminate |].
  rewrite readFile_run.
  destruct (system_fault env (CReadFile file)); [discriminate |].
  cbn [files set_files log]. rewrite lookup_insert_eq, unlink_run.
  destruct (system_fault env (CUnlink file)); [discriminate |].
  cbn [files set_files log]. rewrite lookup_insert_eq. cbn [page log set_files].
  destruct (dom_text env (page st) p) as [[|c text]|]; try discriminate.
  intros E. inversion E; subst. simpl.
  repeat split; try reflexivity.
  - discriminate.
  - apply lookup_delete_eq.
  - now rewrite <- !app_assoc.
Qed.

Lemma prepare_Ok_caches env r st st' :
  prepare env r st = (Ok tt, st') ->
  exists html, cache st' !! cache_key env (req_url r) = Some html.
Proof.
  unfold prepare. intros H.
  apply bind_inv in H as [(e & _ & ?) | ([] & st1 & Hload & H)]; [discriminate |].
  pose proof (loadPage_caches env (req_url r) st st1 Hload) as Hentry.
  assert (preserves (within clicking)
            (page_waitForTimeout env 500 >>
             match req_clickBefore r with
             | Some clickBefore => click_all env clickBefore
             | None => ret tt
             end)) as Hrest by footprint.
  assert (Hc : same_cache st1 st').
  { eapply (within_same_cache clicking); [| eapply Hrest, H]. intros ns key value Hc. exact Hc. }
  exists (markup (page st1)). unfold cache_key. rewrite Hc. exact Hentry.
Qed.

Lemma getContent_Ok_caches env r st content st' :
  getContent env (Some r) st = (Ok content, st') ->
  exists html, cache st' !! cache_key env (req_url r) = Some html.
Proof.
  intros H.
  destruct (getContent_Ok_inv env r st content st' H)
    as (l & p & st1 & st2 & _ & _ & _ & Hprep & Hextract).
  destruct (prepare_Ok_caches env r st1 st2 Hprep) as (html & Hhtml).
  exists html.
  assert (Hc : same_cache st2 st').
  { eapply (within_same_cache extracting); [| eapply extract_within, Hextract].
    intros ns key value Hc. exact Hc. }
  now rewrite Hc.
Qed.

(** X2.  When [getContent] resolves, the content it returns is a non-empty text
    under the selector of the request, with the screenshot as a gif data URI;
    the selector object of the request carries the status valid, the
    screenshot file is gone from the disk, the cache holds markup for the
    address, and the last four calls were, in this order, the text read, the
    screenshot, its read-back and its deletion. *)
Theorem getContent_success env r st content st' :
  getContent env (Some r) st = (Ok content, st') ->
  req_selector r = Some (sc_selector content) /\
  sc_content content <> "" /\
  (exists image, sc_screenshot content = "data:image/gif;base64," +:+ image) /\
  sel_status (heap st' (sc_selector content)) = Some VALID /\
  files st' !! screenshotPath (req_url r) = None /\
  (exists html, cache st' !! cache_key env (req_url r) = Some html) /\
  (exists p calls,
     sel_path (heap st (sc_selector content)) = Some p /\
     trace st' = (trace st ++ calls) ++
       [CTextContent p; CScreenshot p (screenshotPath (req_url r));
        CReadFile (screenshotPath (req_url r)); CUnlink (screenshotPath (req_url r))]).
Proof.
  intros H.
  destruct (getContent_Ok_inv env r st content st' H)
    as (l & p & st1 & st2 & Hsel & Hpath & Hcheck & Hprep & Hextract).
  destruct (extract_Resolve env l p _ st2 content st' Hextract)
    as (Hl & _ & Hcontent & Hshot & Hheap & Hfile & Htrace).
  subst l. split; [exact Hsel |]. split; [exact Hcontent |].
  split; [eexists; exact Hshot |]. split; [| split; [exact Hfile |]].
  - rewrite Hheap.
    apply (prepare_keeps_valid env (sc_selector content) r st1 _ st2 Hprep).
    eapply check_selector_passed, Hcheck.
  - split; [exact (getContent_Ok_caches env r st content st' H) |].
    assert (H1 : emits (fun _ => True) st st1).
    { eapply (within_emits validating); [| eapply check_selector_within, Hcheck]. auto. }
    assert (H2 : emits (fun _ => True) st1 st2).
    { eapply (within_emits preparing); [| eapply prepare_within, Hprep]. auto. }
    destruct (store_trans _ _ _ H1 H2) as (calls & Hcalls & _).
    exists p, calls. split; [exact Hpath |]. now rewrite Htrace, Hcalls.
Qed.

Lemma getContent_success_witness :
  let run := getContent calm (Some (request 0 (Some [Some 2; None]) (Some true))) fresh in
  sel_status (heap (snd run) 0) = Some VALID /\
  files (snd run) !! screenshotPath sample_url = None.
Proof.
  intros run.
  destruct (getContent_success calm (request 0 (Some [Some 2; None]) (Some true)) fresh
              {| sc_content := "yeah baby"; sc_selector := 0;
                 sc_screenshot := "data:image/gif;base64,R0lGODlhAQABAAAAACwAAAAAAQABAAA=" |}
              (snd run))
    as (_ & _ & _ & Hvalid & Hfile & _ & _).
  - vm_compute. reflexivity.
  - split; [exact Hvalid | exact Hfile].
Defined.

(** ** Failures of the validator *)

(** X3.  When the checker itself throws on the rule of a selector, the failure is
    reported with the generic status [ERROR], not [INVALID_SELECTOR]: by
    [clickElement], which then does not click, and by [getContent] for its
    primary selector, which then calls nothing else.  The selector object is
    left without a new status. *)
Theorem checker_crash_is_ERROR env l p st d :
  sel_path (heap st l) = Some p ->
  sel_language (heap st l) = None \/ sel_language (heap st l) = Some "css" ->
  system_fault env (CValidateText (p +:+ " {}")) = Some d ->
  (status_of (fst (clickElement env (Some l) st)) = Some ERROR /\
   snd (clickElement env (Some l) st) = log (CValidateText (p +:+ " {}")) st) /\
  (forall r, req_selector r = Some l ->
     status_of (fst (getContent env (Some r) st)) = Some ERROR /\
     snd (getContent env (Some r) st) = log (CValidateText (p +:+ " {}")) st).
Proof.
  intros Hpath Hlang Hcrash. apply supported_language in Hlang.
  pose proof (validateSelector_throws env l st d Hlang) as Hv.
  rewrite Hpath in Hv. simpl in Hv. specialize (Hv Hcrash).
  split.
  - cbv [clickElement bind deref try_catch ret throw]. rewrite Hpath, Hlang, Hv.
    split; reflexivity.
  - intros r Hsel. rewrite (getContent_run env r l p st Hsel Hpath).
    cbv [check_selector bind try_catch ret]. rewrite Hv. split; reflexivity.
Qed.

Lemma checker_crash_is_ERROR_witness :
  let env := world no_fault checker_down in
  status_of (fst (clickElement env (Some 2) fresh)) = Some ERROR /\
  status_of (fst (getContent env (Some (request 0 None None)) fresh)) = Some ERROR /\
  trace (snd (getContent env (Some (request 0 None None)) fresh))
    = [CValidateText ".a-good-selector {}"].
Proof.
  intros env.
  destruct (checker_crash_is_ERROR env 2 ".a-popup-selector" fresh
              "Error: getaddrinfo ENOTFOUND jigsaw.w3.org" eq_refl (or_introl eq_refl) eq_refl)
    as [[Hclick _] _].
  destruct (checker_crash_is_ERROR env 0 ".a-good-selector" fresh
              "Error: getaddrinfo ENOTFOUND jigsaw.w3.org" eq_refl (or_introl eq_refl) eq_refl)
    as [_ Hrequest].
  destruct (Hrequest (request 0 None None) eq_refl) as [Hstatus Hstore].
  split; [exact Hclick |]. split; [exact Hstatus |]. now rewrite Hstore.
Defined.

(** X4.  A request whose primary selector names a language other than css is
    rejected with the generic status [ERROR]: the unsupported-language error
    of the validator is caught and wrapped, its rendering quoted in the
    message, and no library has been called. *)
Theorem unsupported_primary_language env r l p lang st :
  req_selector r = Some l ->
  sel_path (heap st l) = Some p ->
  sel_language (heap st l) = Some lang ->
  lang <> "css" ->
  getContent env (Some r) st =
    (Throw (ThrowScraping
       {| err_message :=
            "invalid selector, "
            +:+ to_string env (ThrowValidity
                  {| verr_message := "Unsupported language " +:+ lang
                                     +:+ ", only CSS is currently supported";
                     verr_selector := l |});
          err_status := ERROR; err_selector := Some l |}),
     st).
Proof.
  intros Hsel Hpath Hlang Hcss.
  rewrite (getContent_run env r l p st Hsel Hpath).
  cbv [check_selector bind try_catch ret validateSelector deref throw].
  rewrite Hlang. simpl.
  destruct (String.eqb_spec lang "css"); [contradiction | reflexivity].
Qed.

Lemma unsupported_primary_language_witness :
  status_of (fst (getContent calm (Some (request 3 None None)) fresh)) = Some ERROR /\
  snd (getContent calm (Some (request 3 None None)) fresh) = fresh.
Proof.
  rewrite (unsupported_primary_language calm (request 3 None None) 3 "//div" "xpath" fresh
             eq_refl eq_refl eq_refl); [| discriminate].
  split; reflexivity.
Defined.

(** ** Acquiring the page *)

(** X5.  On a cache miss that goes through, [loadPage] has launched a browser,
    navigated to the address, read the rendered markup back and stored it
    under the key of the address, in this order, and the cache differs from
    the previous one by that entry alone. *)
Theorem loadPage_miss env url st st' :
  cache st !! cache_key env url = None ->
  loadPage env url st = (Ok tt, st') ->
  trace st' = trace st ++
    [CLaunch; CNewContext; CNewPage; CSetDefaultTimeout 1000;
     CCacheGet (hostname url) (sha256_hex env (pathname url));
     CGoto (href url); CContent;
     CCacheSet (hostname url) (sha256_hex env (pathname url)) (served env (href url))] /\
  markup (page st') = served env (href url) /\
  cache st' = <[cache_key env url := served env (href url)]> (cache st).
Proof.
  unfold cache_key. intros Hmiss.
  cbv [loadPage bind try_catch browser_call newPage modify cache_get system_call get ret
       page_setContent page_goto page_content cache_set throw].
  destruct (browser_fault env CLaunch); [discriminate |].
  destruct (browser_fault env CNewContext); [discriminate |].
  destruct (browser_fault env CNewPage); [discriminate |].
  destruct (system_fault env (CCacheGet _ _)); [discriminate |].
  cbn [cache log set_page]. rewrite Hmiss.
  destruct (browser_fault env (CGoto _)); [discriminate |].
  destruct (browser_fault env CContent); [discriminate |].
  cbn [page log set_page markup].
  destruct (system_fault env (CCacheSet _ _ _)); [discriminate |].
  intros E. inversion E; subst. cbn. rewrite <- !app_assoc. auto.
Qed.

Lemma loadPage_miss_witness :
  cache (snd (loadPage calm sample_url fresh))
    = {[ ("example.test", "sha256:/page")
         := "<html><!-- https://example.test/page --></html>" ]}.
Proof.
  destruct (loadPage_miss calm sample_url fresh (snd (loadPage calm sample_url fresh))
              eq_refl eq_refl) as (_ & _ & Hcache).
  rewrite Hcache. reflexivity.
Defined.



(** X7.  A request whose page cannot be acquired is rejected with [NO_CONTENT]
    when the browser timed out, and then no delete is attempted, and with
    [ERROR] for any other failure of the acquisition. *)
Theorem acquisition_failure env r l p st x :
  req_selector r = Some l ->
  sel_path (heap st l) = Some p ->
  fst (check_selector env l st) = Ok None ->
  fst (loadPage env (req_url r) (snd (check_selector env l st))) = Throw (ThrowExternal x) ->
  status_of (fst (getContent env (Some r) st))
    = Some (if ext_timeout x then NO_CONTENT else ERROR) /\
  (ext_timeout x = true ->
   snd (getContent env (Some r) st)
   = snd (loadPage env (req_url r) (snd (check_selector env l st)))).
Proof.
  intros Hsel Hpath Hcheck Hload.
  rewrite (getContent_run env r l p st Hsel Hpath).
  destruct (check_selector env l st) as [early st1] eqn:E1. simpl in *. subst early.
  destruct (loadPage env (req_url r) st1) as [res st2] eqn:E2. simpl in *. subst res.
  assert (Hprep : prepare env r st1 = (Throw (ThrowExternal x), st2)).
  { unfold prepare. now rewrite (bind_Throw _ _ _ _ _ E2). }
  rewrite (protected_after_Throw _ _ _ _ _ _ _ _ _ Hprep).
  destruct (getContent_catch_external env l p (screenshotPath (req_url r)) x st2)
    as (e' & st3 & E3 & He').
  split.
  - rewrite E3. simpl. now rewrite He'.
  - simpl. intros Hx. unfold getContent_catch. simpl. now rewrite Hx.
Qed.

Lemma acquisition_failure_witness :
  status_of (fst (getContent (world navigation_times_out no_fault)
                    (Some (request 0 None None)) fresh)) = Some NO_CONTENT /\
  status_of (fst (getContent (world site_unreachable no_fault)
                    (Some (request 0 None None)) fresh)) = Some ERROR.
Proof.
  split.
  - apply (acquisition_failure (world navigation_times_out no_fault) (request 0 None None)
             0 ".a-good-selector" fresh TimeoutError); reflexivity.
  - apply (acquisition_failure (world site_unreachable no_fault) (request 0 None None)
             0 ".a-good-selector" fresh NameNotResolved); reflexivity.
Defined.

(** ** What a request may write *)

#[global] Instance same_file_at_order file : StoreOrder (same_file_at file).
Proof. split; unfold same_file_at; [reflexivity | intros; congruence]. Qed.

#[global] Instance same_entry_at_order key : StoreOrder (same_entry_at key).
Proof. split; unfold same_entry_at; [reflexivity | intros; congruence]. Qed.

Lemma within_bounded_file key file f st st' :
  f <> file -> within (bounded key file) st st' -> same_file_at f st st'.
Proof.
  intros Hf. apply within_sound; [exact _ |].
  intros [c|l v|p|ns k value|file' data|file'] st0 He; unfold same_file_at; simpl in *;
    try reflexivity; subst file'.
  - now apply lookup_insert_ne.
  - now apply lookup_delete_ne.
Qed.

Lemma within_bounded_entry key file k st st' :
  k <> key -> within (bounded key file) st st' -> same_entry_at k st st'.
Proof.
  intros Hk. apply within_sound; [exact _ |].
  intros [c|l v|p|ns k' value|file' data|file'] st0 He; unfold same_entry_at; simpl in *;
    try reflexivity.
  apply lookup_insert_ne. congruence.
Qed.

(** A stage that writes neither the cache nor the disk is within any bound. *)
Ltac unbounded lemma :=
  eapply preserves_weaken; [apply lemma | intros [[]| | | | |]; simpl; tauto].

Lemma check_selector_bounded env l key file :
  preserves (within (bounded key file)) (check_selector env l).
Proof. unbounded check_selector_within. Qed.
#[global] Hint Resolve check_selector_bounded : frame.

Lemma click_all_bounded env clickBefore key file :
  preserves (within (bounded key file)) (click_all env clickBefore).
Proof. unbounded click_all_within. Qed.
#[global] Hint Resolve click_all_bounded : frame.

Lemma loadPage_bounded env url file :
  preserves (within (bounded (cache_key env url) file)) (loadPage env url).
Proof. unfold loadPage. footprint. Qed.
#[global] Hint Resolve loadPage_bounded : frame.

Lemma extract_bounded env l p key file :
  preserves (within (bounded key file)) (extract env l p file).
Proof. unfold extract. footprint. Qed.
#[global] Hint Resolve extract_bounded : frame.

Lemma getContent_catch_bounded env l p key file error :
  preserves (within (bounded key file)) (getContent_catch env l p file error).
Proof. unfold getContent_catch. footprint. Qed.
#[global] Hint Resolve getContent_catch_bounded : frame.

Lemma getContent_bounded env req :
  match req with
  | Some r =>
      preserves (within (bounded (cache_key env (req_url r)) (screenshotPath (req_url r))))
        (getContent env req)
  | None => forall st, snd (getContent env req st) = st
  end.
Proof.
  destruct req as [r|]; [| reflexivity].
  unfold getContent, prepare. footprint.
Qed.

(** X8.  Whatever its outcome, a request writes no file but the one at its
    screenshot path and no cache entry but the one of its address (so the
    entries of other hosts, and of other paths of the same host, are left as
    they were), and it leaves the path and the language of every selector
    object as they were. *)
Theorem getContent_footprint env r st :
  (forall file, file <> screenshotPath (req_url r) ->
     files (snd (getContent env (Some r) st)) !! file = files st !! file) /\
  (forall key, key <> cache_key env (req_url r) ->
     cache (snd (getContent env (Some r) st)) !! key = cache st !! key) /\
  same_selectors st (snd (getContent env (Some r) st)).
Proof.
  pose proof (getContent_bounded env (Some r) st _ _ (surjective_pairing _)) as Hw.
  split; [| split].
  - intros file Hfile. eapply within_bounded_file; eauto.
  - intros key Hkey. eapply within_bounded_entry; eauto.
  - eapply within_same_selectors, Hw.
Qed.

Lemma getContent_footprint_witness :
  let st' := snd (getContent calm (Some (request 0 None None)) cached) in
  cache st' !! ("other.test", "sha256:/page") = None /\
  files st' !! "./notes.txt" = None.
Proof.
  intros st'.
  destruct (getContent_footprint calm (request 0 None None) cached) as (Hfiles & Hcache & _).
  split.
  - rewrite Hcache; [reflexivity | discriminate].
  - rewrite Hfiles; [reflexivity | discriminate].
Defined.

(** ** Reading the text before taking the screenshot *)

Lemma aborting_reading e : aborting e -> reading e.
Proof. destruct e as [[]| | | | |]; simpl; tauto. Qed.

(** X9.  When reading the text of the primary selector throws, by timeout or
    otherwise, the request is rejected without a screenshot having been
    taken or read back, and without any file having been created. *)
Theorem unread_text_leaves_no_screenshot env r l p x st :
  req_selector r = Some l ->
  sel_path (heap st l) = Some p ->
  browser_fault env (CTextContent p) = Some x ->
  rejects (fst (getContent env (Some r) st)) /\
  emits (fun c => ~ screenshot_call c) st (snd (getContent env (Some r) st)) /\
  no_file_created st (snd (getContent env (Some r) st)).
Proof.
  intros Hsel Hpath Htext.
  assert (Hgoal : rejects (fst (getContent env (Some r) st)) /\
                  within reading st (snd (getContent env (Some r) st))).
  { rewrite (getContent_run env r l p st Hsel Hpath).
    destruct (check_selector_settles env l st) as (early & st1 & E1). rewrite E1.
    assert (H1 : within reading st st1).
    { eapply within_weaken; [| eapply check_selector_within, E1].
      intros e He. apply aborting_reading. unfold aborting. tauto. }
    destruct early as [e|]; [split; [exact I | exact H1] |].
    assert (Hcatch : forall err st2,
              rejects (fst (getContent_catch env l p (screenshotPath (req_url r)) err st2)) /\
              within reading st2
                (snd (getContent_catch env l p (screenshotPath (req_url r)) err st2))).
    { intros err st2.
      destruct (getContent_catch_rejects env l p (screenshotPath (req_url r)) err st2)
        as (e & st3 & E3).
      rewrite E3. split; [exact I |].
      eapply within_weaken; [| eapply getContent_catch_within, E3].
      intros e' He'. apply aborting_reading. unfold aborting. tauto. }
    destruct (prepare env r st1) as [[[]|err] st2] eqn:E2.
    - assert (H2 : within reading st1 st2).
      { eapply within_weaken; [| eapply prepare_within, E2].
        intros e He. apply aborting_reading. unfold aborting. tauto. }
      rewrite (protected_after_Ok _ _ _ _ _ _ _ _ E2).
      unfold try_catch, extract, bind. rewrite locator_textContent_run, Htext.
      destruct (Hcatch (ThrowExternal x) (log (CTextContent p) st2)) as [Hr Hw].
      destruct (getContent_catch env l p (screenshotPath (req_url r)) (ThrowExternal x)
                  (log (CTextContent p) st2)) as [[s'|e'] st3]; [contradiction |].
      split; [exact I |]. simpl in Hw.
      eapply store_trans; [exact H1 |]. eapply store_trans; [exact H2 |].
      eapply store_trans; [| exact Hw].
      apply (within_effect reading (Called (CTextContent p))). exact I.
    - assert (H2 : within reading st1 st2).
      { eapply within_weaken; [| eapply prepare_within, E2].
        intros e He. apply aborting_reading. unfold aborting. tauto. }
      rewrite (protected_after_Throw _ _ _ _ _ _ _ _ _ E2).
      destruct (Hcatch err st2) as [Hr Hw].
      destruct (getContent_catch env l p (screenshotPath (req_url r)) err st2)
        as [[s'|e'] st3]; [contradiction |].
      split; [exact I |]. simpl in Hw.
      eapply store_trans; [exact H1 |]. eapply store_trans; eassumption. }
  destruct Hgoal as [Hr Hw]. split; [exact Hr |]. split.
  - eapply within_emits; [| exact Hw].
    intros [] Hc; simpl in *; unfold aborting, preparing in Hc; simpl in Hc; tauto.
  - eapply within_no_file_created; [| exact Hw].
    intros file data Hc. simpl in Hc. unfold aborting, preparing in Hc. simpl in Hc. tauto.
Qed.

Lemma unread_text_leaves_no_screenshot_witness :
  let run := getContent (world node_never_appears no_fault)
               (Some (request 0 None None)) fresh in
  rejects (fst run) /\ no_file_created fresh (snd run).
Proof.
  intros run.
  destruct (unread_text_leaves_no_screenshot (world node_never_appears no_fault)
              (request 0 None None) 0 ".a-good-selector" TimeoutError fresh
              eq_refl eq_refl eq_refl) as (Hr & _ & Hf).
  split; [exact Hr | exact Hf].
Defined.

(** ** The pre-click stage as a whole *)

Lemma clickElement_settles_as env l st :
  match entry_status env (heap st l) with
  | None => exists st', clickElement env (Some l) st = (Ok true, st')
  | Some s =>
      exists e st', clickElement env (Some l) st = (Throw (ThrowScraping e), st') /\
                    err_status e = s
  end.
Proof.
  unfold entry_status.
  destruct (sel_path (heap st l)) as [p|] eqn:Hpath.
  2:{ cbv [clickElement bind deref throw]. rewrite Hpath. eauto. }
  destruct (unsupported (sel_language (heap st l))) eqn:Hlang.
  { cbv [clickElement bind deref throw]. rewrite Hpath, Hlang. eauto. }
  destruct (system_fault env (CValidateText (p +:+ " {}"))) as [d|] eqn:Hcheck.
  { pose proof (validateSelector_throws env l st d Hlang) as Hv.
    rewrite Hpath in Hv. simpl in Hv. specialize (Hv Hcheck).
    cbv [clickElement bind deref try_catch ret throw]. rewrite Hpath, Hlang, Hv. eauto. }
  destruct (css_valid env (p +:+ " {}")) eqn:Hvalid.
  - destruct (browser_fault env (CClick p)) as [x|] eqn:Hclick.
    + pose proof (validateSelector_clean env l st Hlang) as Hv.
      rewrite Hpath in Hv. simpl in Hv. specialize (Hv Hcheck).
      cbv [clickElement bind deref try_catch ret]. rewrite Hpath, Hlang, Hv.
      cbn [resp_status new_DataSelectorValidityResponse resp_selector heap set_heap].
      rewrite update_same, Hvalid. cbn.
      cbv [page_click browser_call bind]. rewrite Hclick. cbn.
      destruct (ext_timeout x); cbv [throw]; eauto.
    + now apply (clickElement_resolves env l p st).
  - pose proof (validateSelector_clean env l st Hlang) as Hv.
    rewrite Hpath in Hv. simpl in Hv. specialize (Hv Hcheck).
    cbv [clickElement bind deref try_catch ret throw]. rewrite Hpath, Hlang, Hv.
    cbn [resp_status new_DataSelectorValidityResponse resp_selector heap set_heap].
    rewrite update_same, Hvalid. cbn. eauto.
Qed.

Lemma entry_status_same_selectors env st st' l :
  same_selectors st st' -> entry_status env (heap st' l) = entry_status env (heap st l).
Proof. intros Hs. destruct (Hs l) as [Hp Hl]. unfold entry_status. now rewrite Hp, Hl. Qed.

Lemma later_failure_same_selectors env st st' acc element :
  same_selectors st st' ->
  later_failure env (heap st') acc element = later_failure env (heap st) acc element.
Proof.
  intros Hs. destruct element as [l|]; [| reflexivity]. simpl.
  now rewrite (entry_status_same_selectors env st st' l Hs).
Qed.

Lemma last_failure_same_selectors env st st' acc elements :
  same_selectors st st' ->
  foldl (later_failure env (heap st')) acc elements
  = foldl (later_failure env (heap st)) acc elements.
Proof.
  intros Hs. revert acc. induction elements as [|element rest IH]; intros acc; simpl.
  - reflexivity.
  - now rewrite (later_failure_same_selectors env st st' acc element Hs), IH.
Qed.

Lemma click_callback_records_status env element clickErr acc st :
  browser_fault env (CWaitForTimeout 500) = None ->
  recorded clickErr acc ->
  exists c st', click_callback env element clickErr st = (Ok c, st') /\
                recorded c (later_failure env (heap st) acc element).
Proof.
  intros Hwait Hrec. destruct element as [l|]; [| simpl; cbv [ret]; eauto].
  unfold click_callback, later_failure.
  pose proof (clickElement_settles_as env l st) as Hclick.
  destruct (entry_status env (heap st l)) as [s|].
  - destruct Hclick as (e & st1 & E1 & He).
    erewrite try_catch_Throw; [| apply bind_Throw; exact E1].
    cbv [ret]. eexists _, _. split; [reflexivity | exact He].
  - destruct Hclick as (st1 & E1).
    erewrite try_catch_Ok.
    2:{ rewrite (bind_Ok _ _ _ _ _ E1).
        unfold bind, page_waitForTimeout, browser_call. rewrite Hwait. reflexivity. }
    eauto.
Qed.

Lemma join_callbacks_records_status env elements clickErr acc st :
  browser_fault env (CWaitForTimeout 500) = None ->
  recorded clickErr acc ->
  exists c st', join_callbacks env elements clickErr st = (Ok c, st') /\
                recorded c (foldl (later_failure env (heap st)) acc elements).
Proof.
  intros Hwait. revert clickErr acc st.
  induction elements as [|element rest IH]; intros clickErr acc st Hrec; simpl.
  - cbv [ret]. eauto.
  - destruct (click_callback_records_status env element clickErr acc st Hwait Hrec)
      as (c1 & st1 & E1 & H1).
    rewrite (bind_Ok _ _ _ _ _ E1).
    destruct (IH c1 _ st1 H1) as (c & st' & E & H).
    exists c, st'. split; [exact E |].
    assert (Hs : same_selectors st st1).
    { eapply within_same_selectors, click_callback_within, E1. }
    now rewrite <- (last_failure_same_selectors env st st1 _ rest Hs).
Qed.

Lemma settles_at_once_same_selectors st st' element :
  same_selectors st st' ->
  settles_at_once (heap st') element = settles_at_once (heap st) element.
Proof.
  intros Hs. destruct element as [l|]; [| reflexivity]. simpl.
  destruct (Hs l) as [-> ->]. reflexivity.
Qed.

Lemma filter_ext_bool {A} (f g : A -> bool) l :
  (forall x, f x = g x) -> List.filter f l = List.filter g l.
Proof.
  intros H. induction l as [|x l IH]; simpl; [reflexivity |]. now rewrite H, IH.
Qed.

Lemma completion_order_same_selectors env st st' elements :
  same_selectors st st' ->
  completion_order env (heap st') elements = completion_order env (heap st) elements.
Proof.
  intros Hs. unfold completion_order.
  rewrite (filter_ext_bool (fun ie => settles_at_once (heap st') (snd ie))
             (fun ie => settles_at_once (heap st) (snd ie)))
    by (intros; now apply settles_at_once_same_selectors).
  rewrite (filter_ext_bool (fun ie => negb (settles_at_once (heap st') (snd ie)))
             (fun ie => negb (settles_at_once (heap st) (snd ie))))
    by (intros; f_equal; now apply settles_at_once_same_selectors).
  reflexivity.
Qed.

Lemma click_all_settles_as env clickBefore st :
  browser_fault env (CWaitForTimeout 500) = None ->
  match last_failure env (heap st) (completion_order env (heap st) clickBefore) with
  | None => exists st', click_all env clickBefore st = (Ok tt, st')
  | Some s =>
      exists e st', click_all env clickBefore st = (Throw (ThrowScraping e), st') /\
                    err_status e = s
  end.
Proof.
  intros Hwait. unfold last_failure.
  destruct (join_callbacks_records_status env (completion_order env (heap st) clickBefore)
              None None st Hwait I) as (c & st' & E & Hrec).
  assert (Hrun : click_all env clickBefore st
                 = match c with Some err => (Throw err, st') | None => (Ok tt, st') end).
  { unfold click_all, bind at 1, get. rewrite (bind_Ok _ _ _ _ _ E). now destruct c. }
  rewrite Hrun.
  destruct (foldl _ None _) as [s|], c as [[e|e|e]|]; simpl in Hrec; try contradiction.
  - exists e, st'. split; [reflexivity | exact Hrec].
  - exists st'. reflexivity.
Qed.

(** X10.  The pre-click stage, the settle pause not throwing: it resolves when no
    entry fails, and otherwise rejects with the status of the entry that
    fails last in the order in which the entries settle, the rejections made
    without a library call coming first, in list order, and the others in the
    order the libraries answer.  Each entry fails with [ERROR] for a missing
    path, an unsupported language, a crash of the checker or a click that
    fails other than by timeout, with [INVALID_SELECTOR] for a path the
    checker finds invalid, with [ELEMENT_NOT_FOUND] for a click that times
    out. *)
Theorem click_all_surfaces_last_failure env clickBefore st :
  browser_fault env (CWaitForTimeout 500) = None ->
  match last_failure env (heap st) (completion_order env (heap st) clickBefore) with
  | None => fst (click_all env clickBefore st) = Ok tt
  | Some s => status_of (fst (click_all env clickBefore st)) = Some s
  end.
Proof.
  intros Hwait. pose proof (click_all_settles_as env clickBefore st Hwait) as H.
  destruct (last_failure env (heap st) (completion_order env (heap st) clickBefore)).
  - destruct H as (e & st' & -> & He). simpl. now rewrite He.
  - destruct H as (st' & ->). reflexivity.
Qed.

Lemma click_all_surfaces_last_failure_witness :
  status_of (fst (click_all (world popup_never_appears no_fault) [Some 2; None; Some 3] fresh))
    = Some ELEMENT_NOT_FOUND /\
  fst (click_all calm [Some 2; None; Some 0] fresh) = Ok tt.
Proof.
  split.
  - apply (click_all_surfaces_last_failure (world popup_never_appears no_fault)
             [Some 2; None; Some 3] fresh eq_refl).
  - apply (click_all_surfaces_last_failure calm [Some 2; None; Some 0] fresh eq_refl).
Defined.



(** ** Undefined pre-click entries *)

Lemma join_callbacks_undefined env elements clickErr st :
  (forall element, element ∈ elements -> element = None) ->
  join_callbacks env elements clickErr st = (Ok clickErr, st).
Proof.
  induction elements as [|element rest IH]; intros Hall; simpl; [reflexivity |].
  rewrite (Hall element) by constructor. simpl.
  unfold bind, ret. apply IH. intros x Hx. apply Hall. now constructor.
Qed.

Lemma click_all_undefined env clickBefore st :
  (forall element, element ∈ clickBefore -> element = None) ->
  click_all env clickBefore st = (Ok tt, st).
Proof.
  intros Hall. unfold click_all, bind at 1, get.
  rewrite (bind_Ok _ _ st None st); [reflexivity |].
  apply join_callbacks_undefined.
  intros x Hx. apply Hall. now apply completion_order_elem in Hx.
Qed.

Lemma getContent_same_prepare env r r' :
  req_selector r' = req_selector r ->
  req_url r' = req_url r ->
  (forall st, prepare env r' st = prepare env r st) ->
  forall st, getContent env (Some r') st = getContent env (Some r) st.
Proof.
  intros Hsel Hurl Hprep st.
  destruct (req_selector r) as [l|] eqn:Hl;
    [| unfold getContent; now rewrite Hsel, Hl].
  destruct (sel_path (heap st l)) as [p|] eqn:Hpath;
    [| unfold getContent, bind, deref; now rewrite Hsel, Hl, Hpath].
  rewrite (getContent_run env r l p st Hl Hpath).
  rewrite (getContent_run env r' l p st) by (congruence || assumption).
  destruct (check_selector env l st) as [[[e|]|e] st1]; try reflexivity.
  rewrite Hurl. unfold try_catch, bind. now rewrite Hprep.
Qed.

Lemma prepare_undefined env r clickBefore st :
  req_clickBefore r = Some clickBefore ->
  (forall element, element ∈ clickBefore -> element = None) ->
  prepare env r st = prepare env (without_clickBefore r) st.
Proof.
  intros Hcb Hall. unfold prepare. simpl. rewrite Hcb.
  unfold bind. destruct (loadPage env (req_url r) st) as [[[]|e] st1]; [| reflexivity].
  destruct (page_waitForTimeout env 500 st1) as [[[]|e] st2]; [| reflexivity].
  now apply click_all_undefined.
Qed.

(** X12.  A list of pre-clicks whose entries are all undefined is played without
    any effect: the request behaves, result and store, as the same request
    without pre-clicks. *)
Theorem undefined_preclicks_are_skipped env r clickBefore st :
  req_clickBefore r = Some clickBefore ->
  (forall element, element ∈ clickBefore -> element = None) ->
  getContent env (Some r) st = getContent env (Some (without_clickBefore r)) st.
Proof.
  intros Hcb Hall. apply getContent_same_prepare; try reflexivity.
  intros st0. now apply (prepare_undefined env r clickBefore).
Qed.

Lemma undefined_preclicks_are_skipped_witness :
  getContent calm (Some (request 0 (Some [None; None]) (Some true))) fresh
  = getContent calm (Some (request 0 None (Some true))) fresh.
Proof.
  apply (undefined_preclicks_are_skipped calm (request 0 (Some [None; None]) (Some true))
           [None; None] fresh eq_refl).
  intros element Hin.
  repeat (apply elem_of_cons in Hin as [Hin | Hin]; [exact Hin |]).
  inversion Hin.
Defined.

(** X13.  The request the front end emits when the user has set no cookie pop-up
    selector carries the one-entry list [[undefined]]: the service treats it
    as a request without pre-clicks. *)
Theorem evaluate_without_popup env s url st :
  getContent env (Some (evaluateConfig s url None)) st
  = getContent env
      (Some {| req_selector := Some s; req_url := url;
               req_clickBefore := None; req_useCache := Some true |}) st.
Proof.
  apply (getContent_same_prepare env
           {| req_selector := Some s; req_url := url;
              req_clickBefore := None; req_useCache := Some true |}
           (evaluateConfig s url None)); [reflexivity | reflexivity |].
  intros st0. apply (prepare_undefined env (evaluateConfig s url None) [None] st0 eq_refl).
  intros element Hin. apply list_elem_of_singleton in Hin. exact Hin.
Qed.

(** ** Pre-clicks that all go through *)

Lemma filter_complement_perm {A} (f : A -> bool) l :
  List.filter f l ++ List.filter (fun x => negb (f x)) l ≡ₚ l.
Proof.
  induction l as [|x l IH]; simpl; [reflexivity |].
  destruct (f x); simpl.
  - now rewrite IH.
  - rewrite <- Permutation_middle. now rewrite IH.
Qed.

Lemma numbered_entries {A} (l : list A) : map snd (imap (fun i x => (i, x)) l) = l.
Proof.
  change (snd <$> imap (fun i x => (i, x)) l = l).
  rewrite fmap_imap. rewrite (imap_ext _ (const id)) by reflexivity.
  rewrite imap_const. apply list_fmap_id.
Qed.

(** The entries settle in an order that is a rearrangement of the list. *)
Lemma completion_order_perm env h elements :
  completion_order env h elements ≡ₚ elements.
Proof.
  unfold completion_order.
  transitivity (map snd (imap (fun i (x : option nat) => (i, x)) elements));
    [| now rewrite numbered_entries].
  apply Permutation_map. rewrite sort_by_perm. apply filter_complement_perm.
Qed.

Lemma entry_status_None env s :
  entry_status env s = None ->
  exists p, sel_path s = Some p /\
            unsupported (sel_language s) = false /\
            system_fault env (CValidateText (p +:+ " {}")) = None /\
            css_valid env (p +:+ " {}") = true /\
            browser_fault env (CClick p) = None.
Proof.
  unfold entry_status. destruct (sel_path s) as [p|]; [| discriminate].
  destruct (unsupported (sel_language s)); [discriminate |].
  destruct (system_fault env (CValidateText (p +:+ " {}"))) eqn:Hclean; [discriminate |].
  destruct (css_valid env (p +:+ " {}")) eqn:Hvalid; [| discriminate].
  destruct (browser_fault env (CClick p)) as [x|] eqn:Hclick; [discriminate |].
  intros _. exists p. repeat split; assumption.
Qed.

Lemma clickElement_resolves_store env l p st :
  sel_path (heap st l) = Some p ->
  unsupported (sel_language (heap st l)) = false ->
  system_fault env (CValidateText (p +:+ " {}")) = None ->
  css_valid env (p +:+ " {}") = true ->
  browser_fault env (CClick p) = None ->
  clickElement env (Some l) st =
    (Ok true,
     set_page {| markup := markup (page st); clicked := clicked (page st) ++ [p] |}
       (log (CClick p)
          (set_heap (update l (with_status VALID (heap st l)) (heap st))
             (log (CValidateText (p +:+ " {}")) st)))).
Proof.
  intros Hpath Hlang Hclean Hvalid Hclick.
  pose proof (validateSelector_clean env l st Hlang) as Hv.
  rewrite Hpath in Hv. simpl in Hv. specialize (Hv Hclean).
  cbv [clickElement bind deref try_catch ret].
  rewrite Hpath, Hlang, Hv.
  cbn [resp_status new_DataSelectorValidityResponse resp_selector heap set_heap].
  rewrite update_same, Hvalid. cbn.
  cbv [page_click browser_call bind modify]. rewrite Hclick. reflexivity.
Qed.

Lemma click_callback_clicks env element clickErr st :
  browser_fault env (CWaitForTimeout 500) = None ->
  (forall l, element = Some l -> entry_status env (heap st l) = None) ->
  exists st',
    click_callback env element clickErr st = (Ok clickErr, st') /\
    markup (page st') = markup (page st) /\
    clicked (page st') = clicked (page st) ++ entry_paths (heap st) [element] /\
    (forall l, element = Some l -> validated env l st').
Proof.
  intros Hwait Hfine. destruct element as [l|].
  2:{ exists st. simpl. rewrite app_nil_r.
      split; [reflexivity |]. split; [reflexivity |]. split; [reflexivity | discriminate]. }
  destruct (entry_status_None env _ (Hfine l eq_refl))
    as (p & Hpath & Hlang & Hclean & Hvalid & Hclick).
  eexists. unfold click_callback. split.
  - erewrite try_catch_Ok; [reflexivity |].
    rewrite (bind_Ok _ _ _ _ _
               (clickElement_resolves_store env l p st Hpath Hlang Hclean Hvalid Hclick)).
    unfold bind, page_waitForTimeout, browser_call. rewrite Hwait. reflexivity.
  - split; [reflexivity |]. split.
    + simpl. now rewrite Hpath.
    + intros l' E. inversion E; subst l'. unfold validated. cbn [heap log set_page set_heap].
      rewrite update_same. cbn [with_status sel_status sel_path]. rewrite Hpath. auto.
Qed.

Lemma entry_paths_same_selectors st st' elements :
  same_selectors st st' -> entry_paths (heap st') elements = entry_paths (heap st) elements.
Proof.
  intros Hs.
  induction elements as [|[l|] rest IH]; simpl; [reflexivity | | exact IH].
  destruct (Hs l) as [-> _]. now rewrite IH.
Qed.

Lemma join_callbacks_clicks env elements clickErr st :
  browser_fault env (CWaitForTimeout 500) = None ->
  (forall l, Some l ∈ elements -> entry_status env (heap st l) = None) ->
  exists st',
    join_callbacks env elements clickErr st = (Ok clickErr, st') /\
    markup (page st') = markup (page st) /\
    clicked (page st') = clicked (page st) ++ entry_paths (heap st) elements /\
    (forall l, Some l ∈ elements -> validated env l st').
Proof.
  intros Hwait. revert st.
  induction elements as [|element rest IH]; intros st Hfine; simpl.
  { exists st. rewrite app_nil_r.
    split; [reflexivity |]. split; [reflexivity |]. split; [reflexivity |].
    intros l Hl. inversion Hl. }
  destruct (click_callback_clicks env element clickErr st Hwait)
    as (st1 & E1 & Hm1 & Hc1 & Hv1).
  { intros l ->. apply Hfine. constructor. }
  assert (Hs : same_selectors st st1).
  { eapply within_same_selectors, click_callback_within, E1. }
  destruct (IH st1) as (st' & E & Hm & Hc & Hv).
  { intros l Hl. rewrite (entry_status_same_selectors env st st1 l Hs).
    apply Hfine. now constructor. }
  exists st'. rewrite (bind_Ok _ _ _ _ _ E1). split; [exact E |].
  split; [congruence |]. split.
  - rewrite Hc, Hc1, (entry_paths_same_selectors st st1 rest Hs), <- app_assoc.
    f_equal. simpl.
    destruct element as [l|]; [| reflexivity]. now destruct (sel_path (heap st l)).
  - intros l Hl. apply elem_of_cons in Hl as [<- | Hl]; [| now apply Hv].
    eapply (join_callbacks_keeps_valid env l rest clickErr st1 _ st' E).
    now apply Hv1.
Qed.

Lemma entry_paths_perm h elements elements' :
  elements ≡ₚ elements' -> entry_paths h elements ≡ₚ entry_paths h elements'.
Proof.
  induction 1 as [|x l l' _ IH|x y l|l l' l'' _ IH1 _ IH2]; simpl.
  - reflexivity.
  - destruct x as [a|]; [| exact IH]. destruct (sel_path (h a)); [now rewrite IH | exact IH].
  - destruct x as [a|], y as [b|]; try reflexivity.
    destruct (sel_path (h a)), (sel_path (h b)); try reflexivity. apply perm_swap.
  - now rewrite IH1.
Qed.



(** ** What the pre-clicks may write *)

#[global] Instance same_selector_at_order l : StoreOrder (same_selector_at l).
Proof. split; unfold same_selector_at; [reflexivity | intros; congruence]. Qed.

Lemma within_clicking_on (P : ref -> Prop) l st st' :
  ~ P l -> within (clicking_on P) st st' -> same_selector_at l st st'.
Proof.
  intros Hl. apply within_sound; [exact _ |].
  intros [c|l' v|p|ns k value|file data|file] st0 He; unfold same_selector_at; simpl in *;
    try reflexivity.
  unfold update. destruct (Nat.eqb_spec l l') as [->|]; [contradiction | reflexivity].
Qed.

Lemma validateSelector_on (P : ref -> Prop) env l :
  P l -> preserves (within (clicking_on P)) (validateSelector env l).
Proof. intros Hl. unfold validateSelector. footprint. Qed.

Lemma clickElement_on (P : ref -> Prop) env element :
  (forall l, element = Some l -> P l) ->
  preserves (within (clicking_on P)) (clickElement env element).
Proof.
  intros Hl. unfold clickElement.
  destruct element as [l|]; [| frame].
  frame; try (apply validateSelector_on; auto); try effect_step; simpl; auto.
Qed.

Lemma join_callbacks_on (P : ref -> Prop) env elements clickErr :
  (forall l, Some l ∈ elements -> P l) ->
  preserves (within (clicking_on P)) (join_callbacks env elements clickErr).
Proof.
  revert clickErr. induction elements as [|element rest IH]; intros clickErr Hall; simpl;
    [frame |].
  apply preserves_bind; [exact _ | | intros c; apply IH; intros l Hl; apply Hall; now constructor].
  unfold click_callback. destruct element as [l|]; [| frame].
  frame; try (apply clickElement_on; intros l' E; inversion E; subst; apply Hall; constructor).
  effect_step. exact I.
Qed.

(** X15.  The pre-click stage, whatever its outcome, calls nothing but the
    checker, [page.click] and [page.waitForTimeout], writes neither the cache
    nor the disk, and writes the status of no selector object other than its
    own entries: a primary selector that is not also listed keeps the status
    it had. *)
Theorem preclicks_footprint env clickBefore st :
  emits preclick_call st (snd (click_all env clickBefore st)) /\
  cache (snd (click_all env clickBefore st)) = cache st /\
  files (snd (click_all env clickBefore st)) = files st /\
  (forall l, Some l ∉ clickBefore ->
     heap (snd (click_all env clickBefore st)) l = heap st l).
Proof.
  pose proof (click_all_within env clickBefore st _ _ (surjective_pairing _)) as Hw.
  split; [| split; [| split]].
  - eapply within_emits; [| exact Hw]. intros [] Hc; simpl in *; tauto.
  - eapply (within_same_cache clicking); [| exact Hw]. intros ns key value Hc. exact Hc.
  - eapply (within_same_files clicking); [| | exact Hw]; intros; exact id.
  - intros l Hl.
    apply (within_clicking_on (fun l => Some l ∈ clickBefore) l); [exact Hl |].
    assert (Hon : preserves (within (clicking_on (fun l => Some l ∈ clickBefore)))
                    (click_all env clickBefore)).
    { unfold click_all. apply preserves_bind; [exact _ | frame | intros st0].
      apply preserves_bind; [exact _ | | intros c; frame].
      apply join_callbacks_on. intros l' Hl'. now apply completion_order_elem in Hl'. }
    eapply Hon. apply surjective_pairing.
Qed.

Lemma preclicks_footprint_witness :
  heap (snd (click_all calm [Some 2; None] fresh)) 0 = css_selector ".a-good-selector".
Proof.
  destruct (preclicks_footprint calm [Some 2; None] fresh) as (_ & _ & _ & Hheap).
  rewrite Hheap; [reflexivity |].
  intros Hin. repeat (apply elem_of_cons in Hin as [Hin | Hin]; [discriminate Hin |]).
  inversion Hin.
Defined.

(** ** The name of the screenshot file *)

Lemma lastIndexOf_from_last_pos c s i found :
  lastIndexOf_from c s i found =
    match last_pos c s with
    | Some k => (i + Z.of_nat k)%Z
    | None => found
    end.
Proof.
  revert i found. induction s as [|a s IH]; intros i found; simpl; [reflexivity |].
  rewrite IH. destruct (last_pos c s) as [k|]; [lia |].
  destruct (Ascii.eqb a c); [lia | reflexivity].
Qed.

Lemma last_pos_split c s k :
  last_pos c s = Some k ->
  exists pre post,
    s = pre +:+ String c post /\ String.length pre = k /\ occurs c post = false.
Proof.
  revert k. induction s as [|a s IH]; intros k; simpl; [discriminate |].
  destruct (last_pos c s) as [k'|] eqn:Hlast.
  - intros E. inversion E; subst k.
    destruct (IH k' eq_refl) as (pre & post & -> & Hlen & Hpost).
    exists (String a pre), post. simpl. rewrite Hlen. auto.
  - destruct (Ascii.eqb_spec a c) as [->|Hne]; [| discriminate].
    intros E. inversion E; subst k. exists "", s. simpl. split; [reflexivity |].
    split; [reflexivity |].
    clear -Hlast. induction s as [|b s IH]; simpl in *; [reflexivity |].
    destruct (last_pos c s); [discriminate |].
    destruct (Ascii.eqb b c); [discriminate |]. simpl. now apply IH.
Qed.

Lemma last_pos_None c s : last_pos c s = None -> occurs c s = false.
Proof.
  induction s as [|a s IH]; simpl; [reflexivity |].
  destruct (last_pos c s); [discriminate |].
  destruct (Ascii.eqb a c); [discriminate |]. intros _. simpl. now apply IH.
Qed.

Lemma occurs_app c s t : occurs c (s +:+ t) = occurs c s || occurs c t.
Proof.
  induction s as [|a s IH]; simpl; [reflexivity |]. now rewrite IH, orb_assoc.
Qed.

Lemma length_app s t : String.length (s +:+ t) = String.length s + String.length t.
Proof. induction s as [|a s IH]; simpl; [reflexivity |]. now rewrite IH. Qed.

Lemma substring_all s : String.substring 0 (String.length s) s = s.
Proof. induction s as [|a s IH]; simpl; [reflexivity |]. now rewrite IH. Qed.

Lemma substring_skip pre n m t :
  String.substring (String.length pre + n) m (pre +:+ t) = String.substring n m t.
Proof. induction pre as [|a pre IH]; simpl; [reflexivity |]. exact IH. Qed.

(** [s.substring(s.lastIndexOf(c) + 1)] is what follows the last [c] of [s]. *)
Lemma after_last c pre post :
  occurs c post = false ->
  substring_from (lastIndexOf c (pre +:+ String c post) + 1) (pre +:+ String c post) = post.
Proof.
  intros Hpost. unfold lastIndexOf. rewrite lastIndexOf_from_last_pos.
  destruct (last_pos c (pre +:+ String c post)) as [k|] eqn:Hlast.
  - destruct (last_pos_split c _ k Hlast) as (pre' & post' & E & Hlen & Hpost').
    assert (Hsame : pre' = pre /\ post' = post).
    { clear -E Hpost Hpost'. revert pre' E.
      induction pre as [|a pre IH]; intros [|a' pre'] E; simpl in *.
      - inversion E. auto.
      - inversion E; subst. simpl in Hpost.
        rewrite occurs_app in Hpost. simpl in Hpost.
        rewrite Ascii.eqb_refl, orb_true_r in Hpost. discriminate.
      - inversion E; subst. rewrite occurs_app in Hpost'. simpl in Hpost'.
        rewrite Ascii.eqb_refl, orb_true_r in Hpost'. discriminate.
      - inversion E; subst. destruct (IH pre' H1) as [-> ->]. auto. }
    destruct Hsame as [-> ->]. unfold substring_from.
    replace (Z.to_nat (0 + Z.of_nat k + 1)) with (String.length pre + 1) by lia.
    rewrite substring_skip, length_app. simpl.
    replace (String.length pre + S (String.length post) - (String.length pre + 1))
      with (String.length post) by lia.
    apply substring_all.
  - apply last_pos_None in Hlast. rewrite occurs_app in Hlast. simpl in Hlast.
    rewrite Ascii.eqb_refl, orb_true_r in Hlast. discriminate.
Qed.

Lemma occurs_split c s :
  occurs c s = true ->
  exists pre post, s = pre +:+ String c post /\ occurs c post = false.
Proof.
  intros Hs. destruct (last_pos c s) as [k|] eqn:Hlast.
  - destruct (last_pos_split c s k Hlast) as (pre & post & E & _ & Hpost). eauto.
  - apply last_pos_None in Hlast. congruence.
Qed.

Lemma occurs_last_pos c s : occurs c s = false -> last_pos c s = None.
Proof.
  induction s as [|a s IH]; simpl; [reflexivity |].
  intros H. apply orb_false_iff in H as [Ha Hs]. now rewrite (IH Hs), Ha.
Qed.

(** [s.substring(s.lastIndexOf(c) + 1)] is [s] when [c] does not occur in it. *)
Lemma after_none c s :
  occurs c s = false -> substring_from (lastIndexOf c s + 1) s = s.
Proof.
  intros Hs. unfold lastIndexOf. rewrite lastIndexOf_from_last_pos.
  rewrite (occurs_last_pos c s Hs). unfold substring_from. simpl.
  rewrite Nat.sub_0_r. apply substring_all.
Qed.

(** X16.  The screenshot file is [./<host>-<base name>.png], where the base
    name is what follows the last slash of the address as the platform
    serialises it, query and fragment included, and the whole serialised
    address when it holds no slash; the base name holds no slash. *)
Theorem screenshotPath_shape u :
  exists baseName,
    screenshotPath u = "./" +:+ hostname u +:+ "-" +:+ baseName +:+ ".png" /\
    occurs "/" baseName = false /\
    if occurs "/" (href u)
    then exists directory, href u = directory +:+ "/" +:+ baseName
    else baseName = href u.
Proof.
  destruct (occurs "/" (href u)) eqn:Hslash.
  - destruct (occurs_split "/" (href u) Hslash) as (pre & post & E & Hpost).
    exists post. split; [| split; [exact Hpost | exists pre; exact E]].
    unfold screenshotPath. rewrite E. now rewrite (after_last "/" pre post Hpost).
  - exists (href u). split; [| split; [exact Hslash | reflexivity]].
    unfold screenshotPath. now rewrite (after_none "/" (href u) Hslash).
Qed.

(** X17.  Two addresses of one host whose texts after the last slash are the same
    are given the same screenshot file, whatever comes before that slash. *)
Theorem screenshotPath_collision u1 u2 directory1 directory2 baseName :
  hostname u1 = hostname u2 ->
  href u1 = directory1 +:+ "/" +:+ baseName ->
  href u2 = directory2 +:+ "/" +:+ baseName ->
  occurs "/" baseName = false ->
  screenshotPath u1 = screenshotPath u2.
Proof.
  intros Hhost E1 E2 Hbase. unfold screenshotPath.
  rewrite E1, E2, Hhost. change ("/" +:+ baseName) with (String "/" baseName).
  now rewrite (after_last "/" directory1 baseName Hbase),
              (after_last "/" directory2 baseName Hbase).
Qed.

Lemma screenshotPath_collision_witness :
  screenshotPath sample_url
  = screenshotPath {| href := "https://example.test/archive/2020/page";
                      hostname := "example.test"; pathname := "/archive/2020/page" |}.
Proof.
  apply (screenshotPath_collision _ _ "https://example.test"
           "https://example.test/archive/2020" "page"); reflexivity.
Defined.

(** ** The selector form of the front end *)

(** X18.  Whenever the form enables the evaluation button, the tooltip it computes
    is the message saying that the evaluation is enabled. *)
Theorem enabled_evaluation_says_so lib c :
  _isEvaluationEnabled lib c = true ->
  _evaluationHelperMessage lib c = t lib "field.evaluation.enabled" None.
Proof.
  unfold _isEvaluationEnabled, _evaluationHelperMessage, status_is.
  destruct (sampleUrl c) as [u|]; [| destruct (isPopup c), (popupSelector c); discriminate].
  destruct (isURL lib (href u));
    [| destruct (isPopup c), (popupSelector c); discriminate].
  destruct (selector c) as [[path lang [[]|]]|]; simpl;
    destruct (isPopup c), (popupSelector c) as [[ppath plang [[]|]]|]; simpl;
    try discriminate; reflexivity.
Qed.

Lemma enabled_evaluation_says_so_witness :
  let lib := {| isURL := fun _ => true; t := fun key _ => key |} in
  let c := {| sampleUrl := Some sample_url;
              selector := Some (with_status VALID (css_selector ".a-good-selector"));
              isPopup := true;
              popupSelector := Some (with_status VALID (css_selector ".a-popup-selector")) |} in
  _evaluationHelperMessage lib c = "field.evaluation.enabled".
Proof.
  intros lib c. apply (enabled_evaluation_says_so lib c). reflexivity.
Defined.

(** ** Asking again *)

(** X19.  After a request that resolved, any request for an address with the same
    host and path is served from the cache as long as the cache was not
    written in between: whatever the libraries answer this time and whatever
    the outcome, it does not navigate and does not write the cache. *)
Theorem repeated_request_is_served_from_cache env1 env2 r1 r2 st content st1 st1' :
  getContent env1 (Some r1) st = (Ok content, st1) ->
  hostname (req_url r2) = hostname (req_url r1) ->
  pathname (req_url r2) = pathname (req_url r1) ->
  sha256_hex env2 (pathname (req_url r1)) = sha256_hex env1 (pathname (req_url r1)) ->
  cache st1' = cache st1 ->
  cache_reused st1' (snd (getContent env2 (Some r2) st1')).
Proof.
  intros Hfirst Hhost Hpath Hsha Hcache.
  destruct (getContent_Ok_caches env1 r1 st content st1 Hfirst) as (html & Hhtml).
  apply (getContent_hit env2 r2 html).
  unfold cache_key in *. now rewrite Hcache, Hhost, Hpath, Hsha.
Qed.

Lemma repeated_request_is_served_from_cache_witness :
  let first := getContent calm (Some (request 0 None (Some true))) fresh in
  cache_reused (snd first)
    (snd (getContent (world site_unreachable no_fault)
            (Some (request 4 (Some [Some 2]) (Some false))) (snd first))).
Proof.
  intros first.
  apply (repeated_request_is_served_from_cache calm (world site_unreachable no_fault)
           (request 0 None (Some true)) (request 4 (Some [Some 2]) (Some false)) fresh
           {| sc_content := "yeah baby"; sc_selector := 0;
              sc_screenshot := "data:image/gif;base64,R0lGODlhAQABAAAAACwAAAAAAQABAAA=" |}
           (snd first) (snd first));
    [vm_compute; reflexivity | reflexivity | reflexivity | reflexivity | reflexivity].
Defined.
